(** * outparser: a shallow embedding of [outparser.py]

    The program converts a directory of [.msg] containers into a
    line-delimited JSON stream and saves the attachments on the way.
    This development embeds the pure normalisers ([clean_value],
    [summarize_addresses], [safe_filename], [strip_html_tags]), the
    per-file task [process_msg_file], the result loop of [main] and
    the optional reorder pass, and proves the properties the
    specification states about them.

    Conventions.
    - A Python [str] is a sequence of Unicode code points: [list N].
      A Python [bytes] is a sequence of octets: [list N] with every
      element below 256.
    - [None] is a constructor of the value type, or [option]'s [None].
    - A function that can raise returns a sum; the file system is an
      explicit state ([gmap] from paths to contents). *)

From Stdlib Require Import NArith ZArith Ascii String List Sorting.Sorted
  Sorting.Permutation DecimalString Decimal Lia Bool.
From stdpp Require Import base option list gmap.

Import ListNotations.
Local Open Scope N_scope.
Set Default Proof Using "Type".

(** ** Strings *)

Module PyStr.

Definition pystr := list N.

(** [u "abc"] is the Python literal ["abc"] (ASCII text). *)
Definition u (s : string) : pystr :=
  List.map N_of_ascii (list_ascii_of_string s).

Definition NUL : N := 0.
Definition SEMICOLON : N := 59.
Definition LT : N := 60.
Definition GT : N := 62.
Definition UNDERSCORE : N := 95.

(** [s.replace(c, "")] for a one-character [c]. *)
Definition remove_char (c : N) (s : pystr) : pystr :=
  List.filter (fun x => negb (x =? c)) s.

(** [sep.join(parts)]. *)
Fixpoint join (sep : pystr) (parts : list pystr) : pystr :=
  match parts with
  | [] => []
  | [p] => p
  | p :: rest => p ++ sep ++ join sep rest
  end.

(** [s.split(c)] for a one-character separator: never empty, one more
    piece than there are separators. *)
Fixpoint split (c : N) (s : pystr) : list pystr :=
  match s with
  | [] => [[]]
  | x :: rest =>
      if x =? c then [] :: split c rest
      else match split c rest with
           | [] => [[x]]
           | p :: ps => (x :: p) :: ps
           end
  end.

(** [str.isspace] on one code point: the characters Python's
    [str.strip()] removes (Unicode White_Space plus the four
    information separators). *)
Definition isspace (c : N) : bool :=
  ((9 <=? c) && (c <=? 13)) || ((28 <=? c) && (c <=? 32))
  || (c =? 133) || (c =? 160) || (c =? 5760)
  || ((8192 <=? c) && (c <=? 8202))
  || (c =? 8232) || (c =? 8233) || (c =? 8239) || (c =? 8287)
  || (c =? 12288).

Fixpoint lstrip (s : pystr) : pystr :=
  match s with
  | [] => []
  | c :: rest => if isspace c then lstrip rest else s
  end.

Definition rstrip (s : pystr) : pystr := rev (lstrip (rev s)).

(** [s.strip()]. *)
Definition strip (s : pystr) : pystr := rstrip (lstrip s).

(** [str(n)] for a non-negative integer. *)
Definition str_of_N (n : N) : pystr :=
  u (NilZero.string_of_uint (N.to_uint n)).

(** [str(z)] for an integer. *)
Definition str_of_Z (z : Z) : pystr :=
  match z with
  | Zneg p => u "-" ++ str_of_N (Npos p)
  | _ => str_of_N (Z.to_N z)
  end.

(** [l[:k]] for a list and an integer bound, negative bounds counting
    from the end as Python slices do. *)
Definition slice_to {A} (l : list A) (k : Z) : list A :=
  if (0 <=? k)%Z then firstn (Z.to_nat k) l
  else firstn (Z.to_nat (Z.of_nat (length l) + k)) l.

End PyStr.
Import PyStr.

(** ** Values handed to [clean_value] *)

(** The dynamically typed argument of [clean_value]: [None], a [bytes]
    payload, a [str], or any other object, of which the function only
    ever uses [str(value)]. *)
Inductive pyval :=
| PNone
| PBytes (b : list N)
| PStr (s : pystr)
| PObj (str_of : pystr).

(** The cp1252 decoding table of the codec: the code point of every
    defined octet, [None] for the five octets the code page leaves
    undefined. *)
Definition cp1252_table (b : N) : option N :=
  match b with
  | 128 => Some 8364 | 129 => None | 130 => Some 8218 | 131 => Some 402
  | 132 => Some 8222 | 133 => Some 8230 | 134 => Some 8224
  | 135 => Some 8225 | 136 => Some 710 | 137 => Some 8240
  | 138 => Some 352 | 139 => Some 8249 | 140 => Some 338
  | 141 => None | 142 => Some 381 | 143 => None
  | 144 => None | 145 => Some 8216 | 146 => Some 8217
  | 147 => Some 8220 | 148 => Some 8221 | 149 => Some 8226
  | 150 => Some 8211 | 151 => Some 8212 | 152 => Some 732
  | 153 => Some 8482 | 154 => Some 353 | 155 => Some 8250
  | 156 => Some 339 | 157 => None | 158 => Some 382 | 159 => Some 376
  | _ => Some b
  end.

Definition REPLACEMENT_CHARACTER : N := 65533.

(** [b.decode("cp1252", errors="replace")]. *)
Definition decode_cp1252_replace (b : list N) : pystr :=
  List.map (fun x => match cp1252_table x with
                     | Some c => c
                     | None => REPLACEMENT_CHARACTER
                     end) b.

(** [clean_value], lines 33-40.  The [bytes] branch rebinds [value] to
    a [str] and falls through to the [str] branch. *)
Definition clean_value (value : pyval) : pystr :=
  match value with
  | PNone => []
  | PBytes b => remove_char NUL (decode_cp1252_replace (remove_char NUL b))
  | PStr s => remove_char NUL s
  | PObj str_of => str_of
  end.

(** ** [safe_filename], lines 24-31 *)

(** The class [[\x00-\x1F\x7F]]. *)
Definition is_control (c : N) : bool := (c <=? 31) || (c =? 127).

(** The second character class of [safe_filename]: backslash, slash,
    colon, star, question mark, double quote, angle brackets and bar. *)
Definition is_forbidden (c : N) : bool :=
  (c =? 92) || (c =? 47) || (c =? 58) || (c =? 42) || (c =? 63)
  || (c =? 34) || (c =? 60) || (c =? 62) || (c =? 124).

Definition unnamed_attachment : pystr := u "unnamed_attachment".

Definition safe_filename (name : pystr) : pystr :=
  let name := List.filter (fun c => negb (is_control c)) name in
  let name := List.map (fun c => if is_forbidden c then UNDERSCORE else c) name in
  match name with
  | [] => unnamed_attachment
  | _ => name
  end.

(** ** [strip_html_tags], lines 42-46 *)

(** [re.sub(r'<[^>]+>', '', text)].  A match starts at a ['<'] whose
    next character exists and is not ['>'], and runs to the first
    ['>'] after it (the class [[^>]] cannot cross one); when there is
    no such ['>'] the ['<'] is kept and the scan goes on. *)
Fixpoint re_sub_tags (s : pystr) : pystr :=
  match s with
  | [] => []
  | c :: rest =>
      if c =? LT then
        match rest with
        | x :: rest' =>
            if x =? GT then c :: re_sub_tags rest
            else
              match
                (fix after_gt (t : pystr) : option pystr :=
                   match t with
                   | [] => None
                   | y :: t' => if y =? GT then Some (re_sub_tags t')
                                else after_gt t'
                   end) rest'
              with
              | Some r => r
              | None => c :: re_sub_tags rest
              end
        | [] => c :: re_sub_tags rest
        end
      else c :: re_sub_tags rest
  end.

(** [text] is a [str] or [None]; a falsy [text] is returned as it is. *)
Definition strip_html_tags (text : option pystr) : option pystr :=
  match text with
  | None => None
  | Some [] => Some []
  | Some s => Some (re_sub_tags s)
  end.

(** ** Truthiness and [or] *)

(** [bool(s)] for a [str]. *)
Definition truthy (s : pystr) : bool :=
  match s with [] => false | _ => true end.

(** [bool(x)] for a [str] or [None]. *)
Definition truthy_opt (x : option pystr) : bool :=
  match x with Some s => truthy s | None => false end.

(** [a or b] on strings. *)
Definition py_or (a b : pystr) : pystr := if truthy a then a else b.

(** [a or b] on values that are a [str] or [None]. *)
Definition py_or_opt (a b : option pystr) : option pystr :=
  if truthy_opt a then a else b.

(** ** [summarize_addresses], lines 13-22 *)

Definition summarize_addresses (addresses : option pystr) (limit : Z) : pystr :=
  if negb (truthy_opt addresses) then []
  else
    let addr_list :=
      List.map (fun a => clean_value (PStr (strip a)))
               (split SEMICOLON (default [] addresses)) in
    if (limit =? 0)%Z || (Z.of_nat (length addr_list) <=? limit)%Z
    then join (u ", ") addr_list
    else join (u ", ") (slice_to addr_list limit)
         ++ u ", and "
         ++ str_of_Z (Z.of_nat (length addr_list) - limit)
         ++ u " others".

(** ** The decoded message *)

(** [msg.date]: absent, a string, or a [datetime], of which the task
    only uses [isoformat()]. *)
Inductive pydate :=
| DateNone
| DateStr (s : pystr)
| DateTime (isoformat : pystr).

Record attachment := mkAttachment {
  longFilename : option pystr;
  shortFilename : option pystr;
  data : list N
}.

(** The attributes of [extract_msg.Message] the task reads.
    [messageId = None] is a message object without that attribute;
    [Some PNone] is the attribute holding [None]. *)
Record Message := mkMessage {
  date : pydate;
  sender : option pystr;
  to : option pystr;
  htmlBody : pyval;
  body : pyval;
  attachments : list attachment;
  messageId : option pyval
}.

(** ** Records *)

(** The values of a record: strings and arrays of strings. *)
Inductive jvalue :=
| JStr (s : pystr)
| JArr (l : list pystr).

#[global] Instance jvalue_eq_dec : EqDecision jvalue.
Proof. solve_decision. Defined.

(** A record is a [dict] with string keys, in insertion order. *)
Definition record := list (pystr * jvalue).

(** [r.get(k, d)]. *)
Fixpoint dict_get (k : pystr) (d : jvalue) (r : record) : jvalue :=
  match r with
  | [] => d
  | (k', v) :: rest => if bool_decide (k' = k) then v else dict_get k d rest
  end.

(** [bool(r)] for a dict. *)
Definition truthy_dict (r : record) : bool :=
  match r with [] => false | _ => true end.

(** The exception a call raised, as [str(e)]. *)
Definition exn := pystr.

(** Any object [clean_value] can be handed: a value whose [str()]
    returns, or an object whose [str()] raises (its [__str__] raises,
    or answers something that is not a [str]). *)
Inductive pyobject :=
| Printable (v : pyval)
| Unprintable (e : exn).

(** [clean_value] on any object, lines 33-40: the [str(value)] of
    line 40 is not guarded, so what it raises leaves the function.
    [clean_value] above is this function on the values whose [str()]
    returns. *)
Definition clean_value_any (value : pyobject) : exn + pystr :=
  match value with
  | Printable v => inr (clean_value v)
  | Unprintable e => inl e
  end.

(** ** Body selection, lines 57-59 *)

Definition select_body (msg : Message) (strip_tags : bool) : pystr :=
  let msg_body :=
    py_or (py_or (clean_value (htmlBody msg)) (clean_value (body msg))) [] in
  if strip_tags && truthy msg_body
  then default [] (strip_html_tags (Some msg_body))
  else msg_body.

(** ** Date, lines 52-54 *)

Definition select_date (msg : Message) : pystr :=
  match date msg with
  | DateNone => []
  | DateStr s => s
  | DateTime isoformat => isoformat
  end.

(** ** MessageID, line 81: [getattr(msg, "messageId", "UNKNOWN")] *)

Definition getattr_messageId (msg : Message) : pyval :=
  match messageId msg with
  | Some v => v
  | None => PStr (u "UNKNOWN")
  end.

Definition message_id (msg : Message) : pystr :=
  clean_value (getattr_messageId msg).

(** ** Ordering of sort keys *)

(** [a < b] on strings: lexicographic on code points. *)
Fixpoint str_ltb (a b : pystr) : bool :=
  match a, b with
  | _, [] => false
  | [], _ :: _ => true
  | x :: a', y :: b' =>
      if x <? y then true
      else if x =? y then str_ltb a' b' else false
  end.

(** [a < b] on lists of strings: the first differing position
    decides, a proper prefix is smaller. *)
Fixpoint list_ltb (a b : list pystr) : bool :=
  match a, b with
  | _, [] => false
  | [], _ :: _ => true
  | x :: a', y :: b' =>
      if bool_decide (x = y) then list_ltb a' b' else str_ltb x y
  end.

(** [a < b] on record values; [None] is the [TypeError] of comparing
    a string with a list. *)
Definition value_lt (a b : jvalue) : option bool :=
  match a, b with
  | JStr x, JStr y => Some (str_ltb x y)
  | JArr x, JArr y => Some (list_ltb x y)
  | _, _ => None
  end.

(** The sort key of line 154: [r.get("Date", "")]. *)
Definition date_key (r : record) : jvalue :=
  dict_get (u "Date") (JStr []) r.

(** The key as text, for records whose [Date] is a string. *)
Definition date_text (r : record) : pystr :=
  match date_key r with
  | JStr s => s
  | JArr _ => []
  end.

Definition date_is_text (r : record) : Prop :=
  exists s, date_key r = JStr s.

(** ** [list.sort] *)

(** A stable sort that only asks [key(y) < key(x)], as [list.sort]
    does, and raises as soon as a comparison does.  The element [x]
    stood before every element of [sorted] in the input, so it goes in
    front of the first element that is not smaller. *)
Fixpoint insert_by_date (x : record) (sorted : list record) : option (list record) :=
  match sorted with
  | [] => Some [x]
  | y :: rest =>
      match value_lt (date_key y) (date_key x) with
      | None => None
      | Some true => cons y <$> insert_by_date x rest
      | Some false => Some (x :: sorted)
      end
  end.

Fixpoint sort_by_date (records : list record) : option (list record) :=
  match records with
  | [] => Some []
  | x :: rest => sort_by_date rest ≫= insert_by_date x
  end.

(** [records.sort(key=..., reverse=reverse)]: a reverse sort reverses
    the list, sorts it forward and reverses the result, which keeps
    equal keys in their input order. *)
Definition list_sort (reverse : bool) (records : list record) : option (list record) :=
  if reverse then @rev record <$> sort_by_date (rev records)
  else sort_by_date records.

(** The same sort over a total comparison, used to reason about
    [sort_by_date] on records whose keys are all strings. *)
Fixpoint insert_stable {A} (ltb : A -> A -> bool) (x : A) (sorted : list A) : list A :=
  match sorted with
  | [] => [x]
  | y :: rest => if ltb y x then y :: insert_stable ltb x rest else x :: sorted
  end.

Fixpoint sort_stable {A} (ltb : A -> A -> bool) (l : list A) : list A :=
  match l with
  | [] => []
  | x :: rest => insert_stable ltb x (sort_stable ltb rest)
  end.

Definition date_ltb (a b : record) : bool := str_ltb (date_text a) (date_text b).

(** Ascending and descending order of two neighbours in the file. *)
Definition date_le (a b : record) : Prop := date_ltb b a = false.
Definition date_ge (a b : record) : Prop := date_ltb a b = false.

(** ** Vocabulary of the properties *)

(** The rest of [t] after its first ['>'], if it has one. *)
Fixpoint find_gt (t : pystr) : option pystr :=
  match t with
  | [] => None
  | y :: t' => if y =? GT then Some t' else find_gt t'
  end.

(** A tag-shaped string: ['<'], at least one character other than
    ['>'], then ['>']. *)
Definition tag_shaped (t : pystr) : Prop :=
  exists mid, t = LT :: mid ++ [GT] /\ mid <> [] /\ Forall (fun c => c <> GT) mid.

Definition has_tag (s : pystr) : Prop :=
  exists pre t post, s = pre ++ t ++ post /\ tag_shaped t.

Definition starts_with_tag (s : pystr) : Prop :=
  exists t post, s = t ++ post /\ tag_shaped t.

(** What [re.sub] does with the pattern, read left to right: a
    tag-shaped run at the current position is dropped whole, a
    character at which no such run starts is kept. *)
Inductive removes_tags : pystr -> pystr -> Prop :=
| removes_nil : removes_tags [] []
| removes_keep c rest r :
    ~ starts_with_tag (c :: rest) -> removes_tags rest r ->
    removes_tags (c :: rest) (c :: r)
| removes_tag t rest r :
    tag_shaped t -> removes_tags rest r -> removes_tags (t ++ rest) r.

(** The body as the specification words it: the HTML body, stripped
    of markup when asked, whenever the message has one; the plain-text
    body when it has none; the empty string when it has neither. *)
Definition spec_body (msg : Message) (strip_tags : bool) : pystr :=
  match htmlBody msg with
  | PNone => clean_value (body msg)
  | html =>
      if strip_tags then default [] (strip_html_tags (Some (clean_value html)))
      else clean_value html
  end.

(** What [list.sort] answers on records whose dates are all text. *)
Definition sorted_by_date (reverse : bool) (records : list record) : list record :=
  if reverse then rev (sort_stable date_ltb (rev records))
  else sort_stable date_ltb records.

(** The order of the file a reorder pass leaves. *)
Definition in_date_order (reverse : bool) (records : list record) : Prop :=
  if reverse then StronglySorted date_ge records
  else StronglySorted date_le records.

(** The records that carry a given date, in file order. *)
Definition with_date (k : pystr) (records : list record) : list record :=
  List.filter (fun r => bool_decide (date_text r = k)) records.

(** ** Sample collaborators

    Concrete stand-ins for the collaborators of the pipeline, used to
    run the definitions on examples. *)

Definition SLASH : N := 47.
Definition DOT : N := 46.

(** [PurePosixPath(p).name] for a path without a trailing slash. *)
Definition posix_name (p : pystr) : pystr := List.last (split SLASH p) [].

(** The reversed name cut at its first dot: what stands after the
    last dot of the name and what stands before it, both reversed. *)
Fixpoint rsplit_dot (rev_name : pystr) : option (pystr * pystr) :=
  match rev_name with
  | [] => None
  | c :: t =>
      if c =? DOT then Some ([], t)
      else match rsplit_dot t with
           | Some (suffix, base) => Some (c :: suffix, base)
           | None => None
           end
  end.

(** [PurePosixPath(p).stem]: the name up to its last dot, when that
    dot is neither the first nor the last character of the name. *)
Definition posix_stem (p : pystr) : pystr :=
  let name := posix_name p in
  match rsplit_dot (rev name) with
  | Some (_ :: _, (_ :: _) as base) => rev base
  | _ => name
  end.

(** [Path(d) / name] for a relative [name]. *)
Definition posix_join (d name : pystr) : pystr := d ++ [SLASH] ++ name.

(** A directory in which every file can be opened for writing. *)
Definition always_writable (p : pystr) : option exn := None.

(** A directory in which one file cannot be opened for writing. *)
Definition locked_file (p : pystr) : option exn :=
  if bool_decide (p = u "Attachments/two_B.TXT")
  then Some (u "[Errno 13] Permission denied")
  else None.

Definition sample_message : Message :=
  mkMessage (DateTime (u "2024-01-02T03:04:05"))
            (Some (u "a@x; b@y ;c@z;d@w"))
            (Some (u "e@v"))
            (PBytes (u "<p>Hi</p>"))
            (PStr (u "Hi"))
            [ mkAttachment (Some (u "re:port.pdf")) (Some (u "REPORT~1.PDF")) [37; 80];
              mkAttachment None None [1];
              mkAttachment (Some []) (Some (u "B.TXT")) [2];
              mkAttachment (Some (u "re/port.pdf")) None [3] ]
            (Some PNone).

(** A decoder that knows one message and rejects [mail/bad.msg]. *)
Definition sample_decoder (p : pystr) : exn + Message :=
  if bool_decide (p = u "mail/bad.msg") then inl (u "not an OLE2 file")
  else inr sample_message.

(** The same decoder, rejecting [mail/two.msg] as well. *)
Definition failing_decoder (p : pystr) : exn + Message :=
  if bool_decide (p = u "mail/two.msg") then inl (u "truncated")
  else sample_decoder p.

(** A line codec for records that carry nothing but a date. *)
Definition date_line_dumps (r : record) : pystr := date_text r.
Definition date_line_loads (line : pystr) : option record :=
  Some [(u "Date", JStr line)].

Definition dated (d : string) : record := [(u "Date", JStr (u d))].

(** A message without an HTML body whose plain text holds a
    tag-shaped run, and one whose HTML body is a lone NUL octet. *)
Definition tagged_plain_message : Message :=
  mkMessage DateNone None None PNone (PStr (u "1 <2 and 3> 4")) [] None.

Definition blank_html_message : Message :=
  mkMessage DateNone None None (PBytes [NUL]) (PStr (u "text")) [] None.

(** A message whose identifier is the very text of the default. *)
Definition unknown_id_message : Message :=
  mkMessage DateNone None None PNone PNone [] (Some (PStr (u "UNKNOWN"))).

Definition sample_batch : list pystr :=
  [u "mail/one.msg"; u "mail/two.msg"; u "mail/bad.msg"; u "mail/three.msg"].

Definition sample_records : list record :=
  [dated "2024-03-01"; dated "2023-12-31"; dated ""; dated "2024-03-01"].

(** Ascending and descending order of two neighbouring keys. *)
Definition str_le (a b : pystr) : Prop := str_ltb b a = false.
Definition str_ge (a b : pystr) : Prop := str_ltb a b = false.

(** The kind of a record's sort key: text or array. *)
Definition date_is_array (r : record) : Prop :=
  exists l, date_key r = JArr l.

(** ** Directory listings and [str] helpers of the scanner *)

(** What a directory holds, in the order the system lists it. *)
#[warnings="-register-all"]
Inductive entry :=
| File (name : pystr)
| Dir (name : pystr) (children : list entry).

Definition entry_name (e : entry) : pystr :=
  match e with File name => name | Dir name _ => name end.

(** The [filenames] of one [os.walk] step: the entries that are not
    directories. *)
Definition file_names (children : list entry) : list pystr :=
  flat_map (fun e => match e with File name => [name] | Dir _ _ => [] end)
           children.

(** [s.endswith(suffix)]. *)
Definition endswith (s suffix : pystr) : bool :=
  bool_decide (skipn (length s - length suffix) s = suffix).

(** [str.lower] on one ASCII character. *)
Definition ascii_lower (c : N) : N :=
  if (65 <=? c) && (c <=? 90) then c + 32 else c.

Definition is_ascii (s : pystr) : Prop := Forall (fun c => c < 128) s.

(** The number of [c] in [s]. *)
Definition count_char (c : N) (s : pystr) : nat :=
  length (List.filter (N.eqb c) s).

(** The command line, as [argparse] hands it to [main]. *)
Record args := mkArgs {
  directory : pystr;
  recursive : bool;
  attachments_dir : pystr;
  output : pystr;
  from_limit : Z;
  to_limit : Z;
  workers : Z;
  strip_tags : bool;
  sort_date : pystr
}.

(** A [str.lower] for examples: the ASCII letters, nothing else. *)
Definition lower_ascii_only (s : pystr) : pystr := List.map ascii_lower s.

(** A run in which the tasks complete in submission order, and one in
    which they complete in the opposite order. *)
Definition in_submission_order (l : list pystr) : list pystr := l.
Definition in_opposite_order (l : list pystr) : list pystr := rev l.

Definition sample_tree : list entry :=
  [ File (u "one.msg"); File (u "notes.txt"); Dir (u "old.msg") [File (u "TWO.MSG")];
    Dir (u "sub") [File (u "three.Msg"); File (u "msg")] ].

(** A line codec that reads back every record: the line is the one
    number that stands for the record in an enumeration of all
    records. *)
#[global] Instance jvalue_countable : Countable jvalue.
Proof.
  refine (inj_countable'
            (fun v => match v with JStr s => inl s | JArr l => inr l end)
            (fun x => match x with inl s => JStr s | inr l => JArr l end) _).
  now intros [].
Defined.

Definition numbered_dumps (r : record) : pystr := [Npos (encode r)].
Definition numbered_loads (line : pystr) : option record :=
  match line with
  | [Npos p] => decode p
  | _ => None
  end.

(** The command line [mail -r], every other option at its default,
    on a machine with four processors. *)
Definition sample_args : args :=
  mkArgs (u "mail") true (u "Attachments") (u "parsed_messages.json") 3 3 4
         false (u "asc").

(** A loader of date lines that, like [json.loads], rejects a blank
    line. *)
Definition strict_date_loads (line : pystr) : option record :=
  match line with
  | [] => None
  | _ => Some [(u "Date", JStr line)]
  end.

Section Outparser.

(** The collaborators of the pipeline that live outside the program:
    the container decoder, the path algebra of [pathlib], the failure
    of [open(path, 'wb')], and the JSON codec. *)
Variable extract_msg_Message : pystr -> exn + Message.
Variable stem : pystr -> pystr.
Variable path_join : pystr -> pystr -> pystr.
Variable open_wb_error : pystr -> option exn.
Variable json_dumps : record -> pystr.
Variable json_loads : pystr -> option record.

(** The attachment directory: file contents by path. *)
Abbreviation filesystem := (gmap pystr (list N)).

(** ** Attachment loop, lines 62-73 *)

(** One iteration of the loop: [None] when the entry is skipped,
    otherwise the name the entry is saved under. *)
Definition attachment_name (filepath : pystr) (att : attachment) : option pystr :=
  let filename := py_or_opt (longFilename att) (shortFilename att) in
  if negb (truthy_opt filename) then None
  else
    let filename := safe_filename (default [] filename) in
    Some (stem filepath ++ u "_" ++ filename).

Fixpoint save_attachments (filepath attachments_dir : pystr)
    (atts : list attachment) (attachment_names : list pystr)
    (files : filesystem) : filesystem * (exn + list pystr) :=
  match atts with
  | [] => (files, inr attachment_names)
  | att :: rest =>
      match attachment_name filepath att with
      | None =>
          save_attachments filepath attachments_dir rest attachment_names files
      | Some unique_name =>
          let save_path := path_join attachments_dir unique_name in
          match open_wb_error save_path with
          | Some e => (files, inl e)
          | None =>
              save_attachments filepath attachments_dir rest
                (attachment_names ++ [clean_value (PStr unique_name)])
                (<[save_path := data att]> files)
          end
      end
  end.

(** ** [process_msg_file], lines 48-87 *)

Definition error_message (filepath : pystr) (e : exn) : pystr :=
  u "Error parsing " ++ filepath ++ u ": " ++ e.

Definition process_msg_file (filepath attachments_dir : pystr)
    (from_limit to_limit : Z) (strip_tags : bool) (files : filesystem)
  : filesystem * (option record * option pystr) :=
  match extract_msg_Message filepath with
  | inl e => (files, (None, Some (error_message filepath e)))
  | inr msg =>
      let msg_date := select_date msg in
      let msg_from := summarize_addresses (sender msg) from_limit in
      let msg_to := summarize_addresses (to msg) to_limit in
      let msg_body := select_body msg strip_tags in
      match save_attachments filepath attachments_dir (attachments msg) [] files with
      | (files', inl e) => (files', (None, Some (error_message filepath e)))
      | (files', inr attachment_names) =>
          (files',
           (Some [ (u "Date", JStr msg_date);
                   (u "From", JStr msg_from);
                   (u "To", JStr msg_to);
                   (u "Message", JStr msg_body);
                   (u "Attachments", JArr attachment_names);
                   (u "MessageID", JStr (message_id msg));
                   (u "SourceFile", JStr filepath) ],
            None))
      end
  end.

(** ** The result loop of [main], lines 129-139 *)

Record run := mkRun {
  run_files : filesystem;    (* the attachment files the tasks wrote *)
  run_out : list pystr;      (* the lines written to the output file *)
  run_errors : list pystr
}.

(** The body of the loop for one completed task. *)
Definition collect (attachments_dir : pystr) (from_limit to_limit : Z)
    (strip_tags : bool) (st : run) (f : pystr) : run :=
  let '(files', (record, error)) :=
    process_msg_file f attachments_dir from_limit to_limit strip_tags
      (run_files st) in
  let out :=
    match record with
    | Some r => if truthy_dict r then run_out st ++ [json_dumps r] else run_out st
    | None => run_out st
    end in
  let errors :=
    match error with
    | Some e => if truthy e then run_errors st ++ [e] else run_errors st
    | None => run_errors st
    end in
  mkRun files' out errors.

(** The loop over the tasks in completion order.  The tasks run in
    worker processes and share nothing but the attachment directory;
    here the writes of a task take place when its result is
    collected. *)
Definition run_batch (attachments_dir : pystr) (from_limit to_limit : Z)
    (strip_tags : bool) (completed : list pystr) (files : filesystem) : run :=
  fold_left (collect attachments_dir from_limit to_limit strip_tags)
            completed (mkRun files [] []).

(** ** The reorder pass of [main], lines 148-158 *)

(** The codec reads back the line it wrote for [r]. *)
Definition reads_back (r : record) : Prop :=
  json_loads (json_dumps r) = Some r.

(** The content of the output file is the list of its lines.  [None]
    is an exception that leaves [main] before the file is reopened
    for writing. *)
Definition rewrite_sorted (reverse : bool) (out : list pystr) : option (list pystr) :=
  records ← mapM json_loads out;
  records ← list_sort reverse records;
  Some (List.map json_dumps records).

Definition reorder_pass (sort_date : pystr) (out : list pystr) : option (list pystr) :=
  if bool_decide (sort_date <> u "none") then
    let reverse := bool_decide (sort_date = u "desc") in
    rewrite_sorted reverse out
  else Some out.

(** The text of a file made of these lines. *)
Definition file_text (lines : list pystr) : pystr :=
  List.concat (List.map (fun l => l ++ [10]) lines).

(** ** Vocabulary of the task properties *)

(** An entry is kept when it has a long or a short name. *)
Definition retained (att : attachment) : bool :=
  truthy_opt (longFilename att) || truthy_opt (shortFilename att).

(** The name an entry is known by: the long one when it has one. *)
Definition chosen_name (att : attachment) : pystr :=
  if truthy_opt (longFilename att) then default [] (longFilename att)
  else default [] (shortFilename att).

Definition saved_name (filepath : pystr) (att : attachment) : pystr :=
  stem filepath ++ u "_" ++ safe_filename (chosen_name att).

(** Writing files one after the other, each truncating its target. *)
Definition write_all (writes : list (pystr * list N)) (files : filesystem)
  : filesystem :=
  fold_left (fun fs w => <[w.1 := w.2]> fs) writes files.

(** The payload of the last write to [p], if there is one. *)
Definition last_write (p : pystr) (writes : list (pystr * list N))
  : option (list N) :=
  snd <$> List.find (fun w => bool_decide (w.1 = p)) (rev writes).

(** What a task answers, the file system left aside. *)
Definition task_outcome (attachments_dir : pystr) (from_limit to_limit : Z)
    (strip_tags : bool) (f : pystr) : option record * option pystr :=
  snd (process_msg_file f attachments_dir from_limit to_limit strip_tags ∅).

(** The line a task adds to the output file, and the message it adds
    to the error report. *)
Definition task_line (attachments_dir : pystr) (from_limit to_limit : Z)
    (strip_tags : bool) (f : pystr) : option pystr :=
  json_dumps <$> fst (task_outcome attachments_dir from_limit to_limit strip_tags f).

Definition task_error (attachments_dir : pystr) (from_limit to_limit : Z)
    (strip_tags : bool) (f : pystr) : option pystr :=
  snd (task_outcome attachments_dir from_limit to_limit strip_tags f).

(** The writes of the attachment loop over [atts], in order. *)
Definition attachment_writes (filepath dir : pystr) (atts : list attachment)
  : list (pystr * list N) :=
  List.map (fun att => (path_join dir (saved_name filepath att), data att))
           (List.filter retained atts).

(** The records of the tasks that succeed, in completion order. *)
Definition task_records (dir : pystr) (fl tl : Z) (st : bool)
    (completed : list pystr) : list record :=
  omap (fun f => fst (task_outcome dir fl tl st f)) completed.

(** ** [scan_directory], lines 90-100 *)

(** Two more collaborators: [str.lower], and the [os.path.join] that
    [os.walk] builds its directory paths with; and the order in which
    the pool reports the tasks of a batch as completed. *)
Variable str_lower : pystr -> pystr.
Variable os_path_join : pystr -> pystr -> pystr.
Variable as_completed : list pystr -> list pystr.

(** The test [f.lower().endswith(".msg")]. *)
Definition is_msg (f : pystr) : bool := endswith (str_lower f) (u ".msg").

(** The steps of [os.walk] below one entry, top down: a directory
    gives its own step, then the steps of its subdirectories. *)
Fixpoint walk_entry (root : pystr) (e : entry) : list (pystr * list pystr) :=
  match e with
  | File _ => []
  | Dir name children =>
      let dirpath := os_path_join root name in
      (dirpath, file_names children) :: flat_map (walk_entry dirpath) children
  end.

(** [os.walk(top)] as the list of its [(root, files)] steps. *)
Definition os_walk (top : pystr) (children : list entry)
  : list (pystr * list pystr) :=
  (top, file_names children) :: flat_map (walk_entry top) children.

(** [list(scan_directory(directory, recursive))] over a directory
    that holds [tree]. *)
Definition scan_directory (directory : pystr) (recursive : bool)
    (tree : list entry) : list pystr :=
  if recursive then
    flat_map (fun step => List.map (path_join step.1) (List.filter is_msg step.2))
             (os_walk directory tree)
  else
    List.map (path_join directory) (List.filter is_msg (List.map entry_name tree)).

(** The paths a recursive scan finds below one entry of [directory]. *)
Definition scan_below (directory : pystr) (e : entry) : list pystr :=
  match e with
  | File _ => []
  | Dir name children =>
      scan_directory (os_path_join directory name) true children
  end.

Definition is_file (e : entry) : bool :=
  match e with File _ => true | Dir _ _ => false end.

(** ** [main], lines 105-158 *)

(** How a run of [main] ends.  The attachment directory is made
    before anything else; [Declined] is [exit(1)] at the prompt;
    [SortRaised] is an exception of the reorder pass, which leaves the
    output file as the result loop wrote it. *)
Inductive main_result :=
| Declined (made_dir : pystr)
| Completed (made_dir : pystr) (result : run) (processed : Z)
            (output_file : list pystr)
| SortRaised (made_dir : pystr) (result : run) (processed : Z).

Definition main (a : args) (tree : list entry) (confirm : pystr)
    (files : filesystem) : main_result :=
  let made_dir := attachments_dir a in
  let scanned := scan_directory (directory a) (recursive a) tree in
  let total := length scanned in
  if negb (bool_decide (str_lower confirm = u "y")) then Declined made_dir
  else
    let result :=
      run_batch (attachments_dir a) (from_limit a) (to_limit a) (strip_tags a)
                (as_completed scanned) files in
    let processed := (Z.of_nat total - Z.of_nat (length (run_errors result)))%Z in
    match reorder_pass (sort_date a) (run_out result) with
    | Some output_file => Completed made_dir result processed output_file
    | None => SortRaised made_dir result processed
    end.

(** * Properties *)

(** ** Strings *)

Lemma remove_char_not_in c s : ~ In c (remove_char c s).
Proof.
  unfold remove_char. intros H. apply filter_In in H as [_ H].
  rewrite N.eqb_refl in H. discriminate.
Qed.

Lemma remove_char_id c s : ~ In c s -> remove_char c s = s.
Proof.
  unfold remove_char. induction s as [|x s IH]; simpl; [reflexivity|].
  intros H. destruct (N.eqb_spec x c) as [->|Hne]; simpl.
  - exfalso. apply H. now left.
  - f_equal. apply IH. intros Hin. apply H. now right.
Qed.

Lemma cp1252_table_nonzero b c : cp1252_table b = Some c -> b <> 0 -> c <> 0.
Proof.
  unfold cp1252_table. intros H Hb.
  destruct b as [|p]; [congruence|].
  repeat (try (injection H as <-; discriminate); try discriminate;
          destruct p as [p|p|]).
Qed.

Lemma decode_cp1252_replace_nul_free b :
  ~ In NUL b -> ~ In NUL (decode_cp1252_replace b).
Proof.
  unfold decode_cp1252_replace. intros Hb Hin.
  apply in_map_iff in Hin as (x & Hx & Hin).
  assert (x <> 0) by (intros ->; contradiction).
  destruct (cp1252_table x) eqn:E.
  - eapply cp1252_table_nonzero; eauto.
  - discriminate.
Qed.

(** The second NUL removal of the [bytes] branch never finds one. *)
Lemma clean_value_bytes b :
  clean_value (PBytes b) = decode_cp1252_replace (remove_char NUL b).
Proof.
  simpl. apply remove_char_id, decode_cp1252_replace_nul_free, remove_char_not_in.
Qed.

(** C4 (as amended): [clean_value] returns without raising for
    [None], a [bytes] payload and a [str]: the empty string for
    [None], the cp1252 decoding with replacement of the NUL-stripped
    payload for [bytes], the NUL-stripped text for [str]; and for
    these the result contains no NUL.  For any other value it answers
    [str(value)] unchanged: it returns when [str(value)] returns and
    raises what [str(value)] raises, and the result contains a NUL
    exactly when [str(value)] does. *)
Theorem clean_value_total_and_nul_free_on_text :
  clean_value PNone = []
  /\ (forall b, clean_value (PBytes b) = decode_cp1252_replace (remove_char NUL b)
                /\ Forall (fun c => c <> NUL) (clean_value (PBytes b)))
  /\ (forall s, clean_value (PStr s) = remove_char NUL s
                /\ Forall (fun c => c <> NUL) (clean_value (PStr s)))
  /\ (forall str_of, clean_value (PObj str_of) = str_of)
  /\ (forall v, clean_value_any (Printable v) = inr (clean_value v))
  /\ (forall value,
         (exists r, clean_value_any value = inr r)
         <-> (exists v, value = Printable v))
  /\ (forall e, clean_value_any (Unprintable e) = inl e).
Proof.
  split; [reflexivity|]. split; [|split; [|split; [reflexivity|]]].
  - intros b. split; [apply clean_value_bytes|].
    apply List.Forall_forall. intros c Hin ->.
    simpl in Hin. now apply remove_char_not_in in Hin.
  - intros s. split; [reflexivity|].
    apply List.Forall_forall. intros c Hin ->.
    simpl in Hin. now apply remove_char_not_in in Hin.
  - split; [reflexivity|]. split; [|reflexivity].
    intros [v|e]; simpl; split.
    + intros _. now exists v.
    + intros _. now exists (clean_value v).
    + intros [r H]. discriminate.
    + intros [v H]. discriminate.
Qed.

(** C4 (as stated) fails on the values that are neither [None] nor
    [bytes] nor [str]: an object whose [str()] holds a NUL comes back
    with it, the last branch returning [str(value)] as it is; and an
    object whose [str()] raises makes [clean_value] raise. *)
Lemma clean_value_object_keeps_nul :
  clean_value (PObj [NUL]) = [NUL] /\ In NUL (clean_value (PObj [NUL]))
  /\ clean_value_any (Printable (PObj [NUL])) = inr [NUL]
  /\ clean_value_any (Unprintable (u "boom")) = inl (u "boom").
Proof.
  split; [reflexivity|]. split; [simpl; now left|]. split; reflexivity.
Qed.

(** ** [safe_filename] *)

Lemma safe_filename_spec name :
  safe_filename name =
  let cleaned :=
    List.map (fun c => if is_forbidden c then UNDERSCORE else c)
             (List.filter (fun c => negb (is_control c)) name) in
  if truthy cleaned then cleaned else unnamed_attachment.
Proof.
  unfold safe_filename.
  destruct (List.map _ (List.filter _ name)); reflexivity.
Qed.

Lemma filter_all_false {A} (f : A -> bool) l :
  Forall (fun x => f x = false) l -> List.filter f l = [].
Proof.
  induction 1 as [|x l Hx _ IH]; simpl; [reflexivity|]. now rewrite Hx.
Qed.

(** C5: [safe_filename] drops the control characters U+0000-U+001F
    and U+007F (NUL among them), then turns each of backslash, slash,
    colon, star, question mark, double quote, the angle brackets and
    the bar into an underscore, and answers the placeholder
    [unnamed_attachment] when nothing is left.  It maps [a/b:c] to
    [a_b_c], a name made of control characters only to the
    placeholder, and never returns the empty string; no character of
    the result is a control or a forbidden character. *)
Theorem safe_filename_sanitizes :
  (forall name,
     safe_filename name =
     let cleaned :=
       List.map (fun c => if is_forbidden c then UNDERSCORE else c)
                (List.filter (fun c => negb (is_control c)) name) in
     if truthy cleaned then cleaned else unnamed_attachment)
  /\ (forall c, is_forbidden c = true <->
                List.In c (u "\/:*?" ++ [34] ++ u "<>|"))
  /\ is_control NUL = true
  /\ safe_filename (u "a/b:c") = u "a_b_c"
  /\ (forall name, forallb is_control name = true ->
                   safe_filename name = unnamed_attachment)
  /\ (forall name, safe_filename name <> [])
  /\ (forall name, forallb (fun c => negb (is_control c) && negb (is_forbidden c))
                           (safe_filename name) = true).
Proof.
  split; [apply safe_filename_spec|].
  split.
  { intros c.
    assert (E : u "\/:*?" ++ [34] ++ u "<>|" = [92; 47; 58; 42; 63; 34; 60; 62; 124])
      by (vm_compute; reflexivity).
    rewrite E. unfold is_forbidden. simpl.
    rewrite !orb_true_iff, !N.eqb_eq. intuition congruence. }
  split; [reflexivity|]. split; [vm_compute; reflexivity|].
  split; [|split].
  - intros name H. unfold safe_filename.
    rewrite filter_all_false; [reflexivity|].
    rewrite forallb_forall in H. apply List.Forall_forall.
    intros x Hx. now rewrite (H x Hx).
  - intros name. rewrite safe_filename_spec. cbv zeta.
    destruct (List.map _ _) eqn:E; simpl; [discriminate|discriminate].
  - intros name. rewrite safe_filename_spec. cbv zeta.
    destruct (truthy _) eqn:E; [|vm_compute; reflexivity].
    apply forallb_forall. intros c Hin.
    apply in_map_iff in Hin as (x & <- & Hin).
    apply filter_In in Hin as [_ Hx].
    destruct (is_forbidden x) eqn:Hf.
    + reflexivity.
    + rewrite Hf. unfold is_control in *. rewrite Hx. reflexivity.
Qed.


(** ** [strip_html_tags] *)

Lemma re_sub_tags_cons c rest :
  re_sub_tags (c :: rest) =
  if c =? LT then
    match rest with
    | x :: rest' =>
        if x =? GT then c :: re_sub_tags rest
        else match find_gt rest' with
             | Some t => re_sub_tags t
             | None => c :: re_sub_tags rest
             end
    | [] => c :: re_sub_tags rest
    end
  else c :: re_sub_tags rest.
Proof.
  destruct rest as [|x rest']; [reflexivity|].
  change (re_sub_tags (c :: x :: rest')) with
    (if c =? LT then
       if x =? GT then c :: re_sub_tags (x :: rest')
       else match
           (fix after_gt (t : pystr) : option pystr :=
              match t with
              | [] => None
              | y :: t' => if y =? GT then Some (re_sub_tags t') else after_gt t'
              end) rest'
         with
         | Some r => r
         | None => c :: re_sub_tags (x :: rest')
         end
     else c :: re_sub_tags (x :: rest')).
  destruct (c =? LT); [|reflexivity].
  destruct (x =? GT); [reflexivity|].
  generalize (c :: re_sub_tags (x :: rest')). intros d.
  induction rest' as [|y t IH]; [reflexivity|].
  simpl find_gt. destruct (y =? GT); [reflexivity|]. exact IH.
Qed.

Lemma find_gt_Some t t' :
  find_gt t = Some t' ->
  exists m, t = m ++ GT :: t' /\ Forall (fun c => c <> GT) m.
Proof.
  revert t'. induction t as [|y t IH]; intros t' H; simpl in H; [discriminate|].
  destruct (N.eqb_spec y GT) as [->|Hne].
  - injection H as <-. exists []. split; [reflexivity|constructor].
  - destruct (IH _ H) as (m & -> & Hm). exists (y :: m).
    split; [reflexivity|]. now constructor.
Qed.

Lemma find_gt_None t : find_gt t = None -> Forall (fun c => c <> GT) t.
Proof.
  induction t as [|y t IH]; simpl; intros H; [constructor|].
  destruct (N.eqb_spec y GT); [discriminate|]. constructor; auto.
Qed.

(** Stripping only removes characters. *)
Lemma re_sub_tags_sublist s : re_sub_tags s `sublist_of` s.
Proof.
  induction s as [s IH] using (induction_ltof1 _ (@length N)); unfold ltof in IH.
  destruct s as [|c rest]; [constructor|].
  rewrite re_sub_tags_cons.
  assert (Hrest : c :: re_sub_tags rest `sublist_of` c :: rest)
    by (apply sublist_skip, IH; simpl; lia).
  destruct (c =? LT); [|exact Hrest].
  destruct rest as [|x rest']; [exact Hrest|].
  destruct (x =? GT); [exact Hrest|].
  destruct (find_gt rest') as [t|] eqn:E; [|exact Hrest].
  destruct (find_gt_Some _ _ E) as (m & -> & _).
  replace (c :: x :: m ++ GT :: t) with ((c :: x :: m ++ [GT]) ++ t)
    by (simpl; now rewrite <- app_assoc).
  apply sublist_inserts_l, IH. simpl. rewrite !length_app. simpl. lia.
Qed.

Lemma re_sub_tags_keeps_gt_free s :
  Forall (fun c => c <> GT) s -> Forall (fun c => c <> GT) (re_sub_tags s).
Proof.
  intros H. rewrite List.Forall_forall in *. intros c Hc. apply H.
  apply list_elem_of_In. eapply elem_of_sublist; [|apply re_sub_tags_sublist].
  now apply list_elem_of_In.
Qed.

Lemma cons_eq_app_lt c o (pre : pystr) x post :
  c :: o = pre ++ LT :: x :: post ->
  (pre = [] /\ c = LT /\ o = x :: post)
  \/ (exists pre', pre = c :: pre' /\ o = pre' ++ LT :: x :: post).
Proof.
  destruct pre as [|p pre']; simpl; intros H; injection H as -> ->.
  - now left.
  - right. now exists pre'.
Qed.

(** In the result, a ['<'] that is not directly followed by ['>'] has
    no ['>'] anywhere after it. *)
Lemma re_sub_tags_open_lt s pre x post :
  re_sub_tags s = pre ++ LT :: x :: post ->
  x <> GT -> Forall (fun c => c <> GT) post.
Proof.
  revert pre x post.
  induction s as [s IH] using (induction_ltof1 _ (@length N)); unfold ltof in IH.
  intros pre x post Ho Hx.
  destruct s as [|c rest]; [now destruct pre|].
  rewrite re_sub_tags_cons in Ho.
  assert (Hkeep : c :: re_sub_tags rest = pre ++ LT :: x :: post ->
                  (c = LT -> re_sub_tags rest = x :: post ->
                   Forall (fun c => c <> GT) post) ->
                  Forall (fun c => c <> GT) post).
  { intros H Hhead. apply cons_eq_app_lt in H as [(_ & Hc & Hr)|(pre' & _ & Hr)].
    - now apply Hhead.
    - eapply (IH rest); [simpl; lia|exact Hr|exact Hx]. }
  destruct (N.eqb_spec c LT) as [->|Hc]; [|apply Hkeep; [exact Ho|congruence]].
  destruct rest as [|y rest'].
  { apply Hkeep; [exact Ho|]. intros _ H. discriminate. }
  destruct (N.eqb_spec y GT) as [->|Hy].
  { apply Hkeep; [exact Ho|]. intros _ H.
    rewrite re_sub_tags_cons in H. simpl in H. injection H as H _. congruence. }
  destruct (find_gt rest') as [t|] eqn:E.
  - destruct (find_gt_Some _ _ E) as (m & -> & _).
    eapply (IH t); [|exact Ho|exact Hx].
    simpl. rewrite length_app. simpl. lia.
  - apply Hkeep; [exact Ho|]. intros _ H.
    assert (Hall : Forall (fun c => c <> GT) (re_sub_tags (y :: rest'))).
    { apply re_sub_tags_keeps_gt_free. constructor; [exact Hy|].
      now apply find_gt_None. }
    rewrite H in Hall. now inversion Hall.
Qed.

Lemma re_sub_tags_no_tag s : ~ has_tag (re_sub_tags s).
Proof.
  intros (pre & t & post & Ho & mid & -> & Hne & Hmid).
  destruct mid as [|x mid']; [congruence|].
  inversion Hmid as [|? ? Hx _]; subst.
  assert (H : Forall (fun c => c <> GT) (mid' ++ GT :: post)).
  { eapply re_sub_tags_open_lt; [|exact Hx].
    rewrite Ho. simpl. rewrite <- app_assoc. reflexivity. }
  apply Forall_app in H as [_ H]. inversion H. congruence.
Qed.

Lemma has_tag_cons c s : has_tag s -> has_tag (c :: s).
Proof.
  intros (pre & t & post & -> & Ht). exists (c :: pre), t, post. now split.
Qed.

Lemma re_sub_tags_without_tag s : ~ has_tag s -> re_sub_tags s = s.
Proof.
  induction s as [|c rest IH]; [reflexivity|]. intros Hno.
  assert (Hrest : c :: re_sub_tags rest = c :: rest).
  { f_equal. apply IH. intros H. apply Hno. now apply has_tag_cons. }
  rewrite re_sub_tags_cons.
  destruct (N.eqb_spec c LT) as [->|Hc]; [|exact Hrest].
  destruct rest as [|y rest']; [exact Hrest|].
  destruct (N.eqb_spec y GT) as [->|Hy]; [exact Hrest|].
  destruct (find_gt rest') as [t|] eqn:E; [|exact Hrest].
  exfalso. apply Hno. destruct (find_gt_Some _ _ E) as (m & -> & Hm).
  exists [], (LT :: (y :: m) ++ [GT]), t. split.
  - simpl. now rewrite <- app_assoc.
  - exists (y :: m). split; [reflexivity|]. split; [discriminate|].
    now constructor.
Qed.

Lemma starts_with_tag_inv c rest :
  starts_with_tag (c :: rest) ->
  c = LT /\ exists x rest', rest = x :: rest' /\ x <> GT /\ In GT rest'.
Proof.
  intros (t & post & Hs & mid & -> & Hne & Hmid).
  destruct mid as [|x mid']; [congruence|].
  simpl in Hs. injection Hs as -> ->. split; [reflexivity|].
  inversion Hmid; subst. exists x, ((mid' ++ [GT]) ++ post).
  split; [reflexivity|]. split; [assumption|].
  apply in_or_app. left. apply in_or_app. right. now left.
Qed.

(** [re_sub_tags] is the left-to-right removal of tag-shaped runs. *)
Lemma re_sub_tags_removes s : removes_tags s (re_sub_tags s).
Proof.
  induction s as [s IH] using (induction_ltof1 _ (@length N)); unfold ltof in IH.
  destruct s as [|c rest]; [constructor|].
  rewrite re_sub_tags_cons.
  assert (Hkeep : ~ starts_with_tag (c :: rest) ->
                  removes_tags (c :: rest) (c :: re_sub_tags rest)).
  { intros Hno. constructor; [exact Hno|]. apply IH. simpl. lia. }
  destruct (N.eqb_spec c LT) as [->|Hc].
  2: { apply Hkeep. intros H. now apply starts_with_tag_inv in H as [? _]. }
  destruct rest as [|y rest'].
  { apply Hkeep. intros H.
    apply starts_with_tag_inv in H as (_ & x & r & H & _). discriminate. }
  destruct (N.eqb_spec y GT) as [->|Hy].
  { apply Hkeep. intros H.
    apply starts_with_tag_inv in H as (_ & x & r & [= <- <-] & Hx & _).
    congruence. }
  destruct (find_gt rest') as [t|] eqn:E.
  - destruct (find_gt_Some _ _ E) as (m & -> & Hm).
    replace (LT :: y :: m ++ GT :: t) with ((LT :: (y :: m) ++ [GT]) ++ t)
      by (simpl; now rewrite <- app_assoc).
    constructor.
    + exists (y :: m). split; [reflexivity|]. split; [discriminate|].
      now constructor.
    + apply IH. simpl. rewrite length_app. simpl. lia.
  - apply Hkeep. intros H.
    apply starts_with_tag_inv in H as (_ & x & r & [= <- <-] & _ & Hin).
    apply find_gt_None in E. rewrite List.Forall_forall in E.
    now apply (E GT Hin).
Qed.

(** C8: [strip_html_tags] removes the tag-shaped substrings (a ['<'],
    one or more characters other than ['>'], a ['>']) of its input,
    scanning from the left, and keeps every other character: no
    tag-shaped substring is left in the result; an absent or empty
    text is returned as it is, a text without a tag-shaped substring
    is returned unchanged, and [<b>hi</b> there] becomes [hi there]. *)
Theorem strip_html_tags_removes_tags :
  (forall s, exists r,
      strip_html_tags (Some s) = Some r /\ removes_tags s r
      /\ ~ has_tag r /\ r `sublist_of` s)
  /\ strip_html_tags None = None
  /\ strip_html_tags (Some []) = Some []
  /\ (forall s, ~ has_tag s -> strip_html_tags (Some s) = Some s)
  /\ strip_html_tags (Some (u "<b>hi</b> there")) = Some (u "hi there").
Proof.
  split; [|split; [reflexivity|split; [reflexivity|split]]].
  - intros s. exists (re_sub_tags s). split; [now destruct s|].
    split; [apply re_sub_tags_removes|].
    split; [apply re_sub_tags_no_tag|apply re_sub_tags_sublist].
  - intros s H. destruct s as [|c s]; [reflexivity|].
    unfold strip_html_tags. f_equal. now apply re_sub_tags_without_tag.
  - vm_compute. reflexivity.
Qed.

(** ** The record of a task *)

(** What a task answers, read off the decoder's answer for its file. *)
Lemma process_msg_file_decoded filepath attachments_dir from_limit to_limit
    strip_tags files msg :
  extract_msg_Message filepath = inr msg ->
  process_msg_file filepath attachments_dir from_limit to_limit strip_tags files =
  match save_attachments filepath attachments_dir (attachments msg) [] files with
  | (files', inl e) => (files', (None, Some (error_message filepath e)))
  | (files', inr attachment_names) =>
      (files',
       (Some [ (u "Date", JStr (select_date msg));
               (u "From", JStr (summarize_addresses (sender msg) from_limit));
               (u "To", JStr (summarize_addresses (to msg) to_limit));
               (u "Message", JStr (select_body msg strip_tags));
               (u "Attachments", JArr attachment_names);
               (u "MessageID", JStr (message_id msg));
               (u "SourceFile", JStr filepath) ],
        None))
  end.
Proof. intros H. unfold process_msg_file. now rewrite H. Qed.

Lemma process_msg_file_record filepath attachments_dir from_limit to_limit
    strip_tags files files' msg r err :
  extract_msg_Message filepath = inr msg ->
  process_msg_file filepath attachments_dir from_limit to_limit strip_tags files
    = (files', (Some r, err)) ->
  exists attachment_names,
    save_attachments filepath attachments_dir (attachments msg) [] files
      = (files', inr attachment_names)
    /\ err = None
    /\ r = [ (u "Date", JStr (select_date msg));
             (u "From", JStr (summarize_addresses (sender msg) from_limit));
             (u "To", JStr (summarize_addresses (to msg) to_limit));
             (u "Message", JStr (select_body msg strip_tags));
             (u "Attachments", JArr attachment_names);
             (u "MessageID", JStr (message_id msg));
             (u "SourceFile", JStr filepath) ].
Proof.
  intros Hd H. rewrite (process_msg_file_decoded _ _ _ _ _ _ _ Hd) in H.
  destruct (save_attachments _ _ _ _ _) as [fs [e|names]]; [discriminate|].
  injection H as <- <- <-. now exists names.
Qed.

(** ** Body selection *)

Lemma truthy_false s : truthy s = false -> s = [].
Proof. now destruct s. Qed.

Lemma select_body_chosen msg strip_tags :
  select_body msg strip_tags =
  let html := clean_value (htmlBody msg) in
  let plain := clean_value (body msg) in
  let chosen := if truthy html then html else plain in
  if strip_tags then re_sub_tags chosen else chosen.
Proof.
  unfold select_body, py_or. cbv zeta.
  destruct (truthy (clean_value (htmlBody msg))) eqn:Eh.
  - rewrite Eh. destruct strip_tags; [|reflexivity]. simpl.
    destruct (clean_value (htmlBody msg)); [discriminate|reflexivity].
  - destruct (truthy (clean_value (body msg))) eqn:Eb.
    + destruct strip_tags; [|reflexivity]. simpl. rewrite Eb.
      destruct (clean_value (body msg)); [discriminate|reflexivity].
    + apply truthy_false in Eb. rewrite Eb. now destruct strip_tags.
Qed.

(** C7 (as amended): the [Message] field of a record is the cleaned
    HTML body when that is not empty and the cleaned plain-text body
    otherwise (also when the HTML body is present but empty once
    cleaned), the empty string when both are absent; and when the
    strip-tags flag is set the markup is stripped from whichever body
    was selected, the plain-text one included, and from neither when
    the flag is not set. *)
Theorem body_prefers_html_and_strips_selected :
  forall filepath attachments_dir from_limit to_limit (strip_tags : bool)
         files msg,
    extract_msg_Message filepath = inr msg ->
    let html := clean_value (htmlBody msg) in
    let plain := clean_value (body msg) in
    let chosen := if truthy html then html else plain in
    let msg_body := if strip_tags then re_sub_tags chosen else chosen in
    (forall files' r err,
        process_msg_file filepath attachments_dir from_limit to_limit
          strip_tags files = (files', (Some r, err)) ->
        dict_get (u "Message") (JStr []) r = JStr msg_body)
    /\ select_body msg strip_tags = msg_body
    /\ (htmlBody msg = PNone -> chosen = plain)
    /\ (htmlBody msg = PNone -> body msg = PNone -> msg_body = []).
Proof.
  intros filepath attachments_dir from_limit to_limit strip_tags files msg Hd.
  cbv zeta. split; [|split; [|split]].
  - intros files' r err H.
    destruct (process_msg_file_record _ _ _ _ _ _ _ _ _ _ Hd H)
      as (names & _ & _ & ->).
    rewrite <- select_body_chosen. reflexivity.
  - apply select_body_chosen.
  - intros ->. reflexivity.
  - intros -> ->. simpl. now destruct strip_tags.
Qed.

(** ** MessageID *)

(** C10 (as amended): the [MessageID] field of a record is the
    cleaned value of the attribute when the message has one, which is
    the empty string (and not [UNKNOWN]) when the attribute holds
    [None]; the default [UNKNOWN] is taken only for a message without
    the attribute, so a [MessageID] equal to [UNKNOWN] comes from a
    missing attribute or from an attribute whose own cleaned value is
    that text. *)
Theorem message_id_unknown_only_without_attribute :
  forall filepath attachments_dir from_limit to_limit strip_tags files msg,
    extract_msg_Message filepath = inr msg ->
    (forall files' r err,
        process_msg_file filepath attachments_dir from_limit to_limit
          strip_tags files = (files', (Some r, err)) ->
        dict_get (u "MessageID") (JStr []) r = JStr (message_id msg))
    /\ (messageId msg = None -> message_id msg = u "UNKNOWN")
    /\ (messageId msg = Some PNone ->
        message_id msg = [] /\ message_id msg <> u "UNKNOWN")
    /\ (forall v, messageId msg = Some v -> message_id msg = clean_value v)
    /\ (message_id msg = u "UNKNOWN" ->
        messageId msg = None
        \/ exists v, messageId msg = Some v /\ v <> PNone
                     /\ clean_value v = u "UNKNOWN").
Proof.
  intros filepath attachments_dir from_limit to_limit strip_tags files msg Hd.
  split; [|split; [|split; [|split]]].
  - intros files' r err H.
    destruct (process_msg_file_record _ _ _ _ _ _ _ _ _ _ Hd H)
      as (names & _ & _ & ->).
    reflexivity.
  - unfold message_id, getattr_messageId. intros ->. vm_compute. reflexivity.
  - unfold message_id, getattr_messageId. intros ->. split; [reflexivity|].
    discriminate.
  - unfold message_id, getattr_messageId. now intros v ->.
  - unfold message_id, getattr_messageId.
    destruct (messageId msg) as [v|]; [|now left].
    intros H. right. exists v. split; [reflexivity|]. split; [|exact H].
    intros ->. discriminate.
Qed.

(** ** [summarize_addresses] *)

Lemma split_nonempty c s : split c s <> [].
Proof.
  destruct s as [|x s]; simpl; [discriminate|].
  destruct (x =? c); [discriminate|]. now destruct (split c s).
Qed.

Lemma join_cons sep p q rest :
  join sep (p :: q :: rest) = p ++ sep ++ join sep (q :: rest).
Proof. reflexivity. Qed.

(** Splitting cuts exactly at the separators: joining the pieces with
    the separator gives the text back, and no piece holds one. *)
Lemma split_join c s : join [c] (split c s) = s.
Proof.
  induction s as [|x s IH]; [reflexivity|]. simpl split.
  pose proof (split_nonempty c s) as Hne.
  destruct (N.eqb_spec x c) as [->|Hx].
  - destruct (split c s) as [|p ps]; [congruence|].
    rewrite join_cons, IH. reflexivity.
  - destruct (split c s) as [|p ps]; [congruence|].
    destruct ps as [|q ps]; simpl in *; now rewrite <- IH.
Qed.

Lemma split_pieces c s : Forall (fun p => ~ In c p) (split c s).
Proof.
  induction s as [|x s IH]; simpl.
  - constructor; [intros []|constructor].
  - destruct (N.eqb_spec x c) as [->|Hx].
    + constructor; [intros []|exact IH].
    + pose proof (split_nonempty c s) as Hne.
      destruct (split c s) as [|p ps]; [congruence|].
      inversion IH; subst.
      constructor; [|assumption]. intros [H|H]; [congruence|contradiction].
Qed.

Lemma forallb_rev_true {A} (f : A -> bool) l :
  forallb f l = true -> forallb f (rev l) = true.
Proof.
  rewrite !forallb_forall. intros H x Hx. apply H. now apply in_rev.
Qed.

Lemma lstrip_spec s :
  exists ws, s = ws ++ lstrip s /\ forallb isspace ws = true
             /\ (forall c t, lstrip s = c :: t -> isspace c = false).
Proof.
  induction s as [|x s (ws & Hs & Hws & Hhd)]; simpl.
  - exists []. repeat split. discriminate.
  - destruct (isspace x) eqn:E.
    + exists (x :: ws). simpl. rewrite E, Hws. repeat split; [|exact Hhd].
      now rewrite <- Hs.
    + exists []. repeat split. intros c t [= <- <-]. exact E.
Qed.

(** [strip] removes a run of white space at each end and nothing
    else, and what is left neither starts nor ends with white space. *)
Lemma strip_spec s :
  exists l r, s = l ++ strip s ++ r
              /\ forallb isspace l = true /\ forallb isspace r = true
              /\ (forall c t, strip s = c :: t -> isspace c = false)
              /\ (forall c t, strip s = t ++ [c] -> isspace c = false).
Proof.
  unfold strip, rstrip.
  destruct (lstrip_spec s) as (l & Hs & Hl & Hhd).
  destruct (lstrip_spec (rev (lstrip s))) as (r & Hr & Hrs & Hlast).
  exists l, (rev r).
  assert (Hm : lstrip s = rev (lstrip (rev (lstrip s))) ++ rev r).
  { rewrite <- rev_app_distr, <- Hr. now rewrite rev_involutive. }
  split; [now rewrite <- Hm|]. split; [exact Hl|].
  split; [now apply forallb_rev_true|].
  split.
  - intros c t H. destruct (lstrip s) as [|c' t'] eqn:E.
    + simpl in H. discriminate.
    + rewrite H in Hm. simpl in Hm. injection Hm as <- _.
      now apply (Hhd c' t').
  - intros c t H. apply (Hlast c (rev t)).
    rewrite <- (rev_involutive (lstrip (rev (lstrip s)))), H, rev_app_distr.
    reflexivity.
Qed.

Lemma slice_to_nonneg {A} (l : list A) k :
  (0 <= k)%Z -> slice_to l k = firstn (Z.to_nat k) l.
Proof. unfold slice_to. intros H. now destruct (Z.leb_spec 0 k); [|lia]. Qed.

Lemma str_of_Z_nonneg z : (0 <= z)%Z -> str_of_Z z = str_of_N (Z.to_N z).
Proof. destruct z; [reflexivity|reflexivity|lia]. Qed.

Example str_of_Z_decimal : str_of_Z 1204 = u "1204".
Proof. reflexivity. Qed.

Example summarize_addresses_example :
  summarize_addresses (Some (u "a@x; b@y ;c@z;d@w")) 2 = u "a@x, b@y, and 2 others".
Proof. vm_compute. reflexivity. Qed.

(** C2: for a limit that is not negative, [summarize_addresses]
    answers the empty string on an empty (or absent) input; otherwise
    it splits the input at every [;], trims and cleans each piece,
    (white space off both ends, then the NULs out), joins all of them
    with a comma and a space when the limit is 0 or
    the number of pieces is at most the limit, and when there are
    more pieces than a limit of at least 1 it joins the first [limit]
    of them and appends [, and N others] with N the number left out. *)
Theorem summarize_addresses_by_limit :
  forall (addresses : option pystr) (limit : Z),
    (0 <= limit)%Z ->
    (truthy_opt addresses = false -> summarize_addresses addresses limit = [])
    /\ (forall s, addresses = Some s -> s <> [] ->
        let pieces := split SEMICOLON s in
        let entries := List.map (fun a => remove_char NUL (strip a)) pieces in
        let count := length entries in
        join [SEMICOLON] pieces = s
        /\ Forall (fun p => ~ In SEMICOLON p) pieces
        /\ (forall p, exists l r,
               p = l ++ strip p ++ r
               /\ forallb isspace l = true /\ forallb isspace r = true
               /\ (forall c t, strip p = c :: t -> isspace c = false)
               /\ (forall c t, strip p = t ++ [c] -> isspace c = false))
        /\ (limit = 0%Z \/ (Z.of_nat count <= limit)%Z ->
            summarize_addresses addresses limit = join (u ", ") entries)
        /\ ((1 <= limit)%Z -> (limit < Z.of_nat count)%Z ->
            let shown := firstn (Z.to_nat limit) entries in
            length shown = Z.to_nat limit
            /\ summarize_addresses addresses limit =
               join (u ", ") shown ++ u ", and "
               ++ str_of_N (N.of_nat (count - Z.to_nat limit)) ++ u " others")).
Proof.
  intros addresses limit Hlimit. split.
  - unfold summarize_addresses. now intros ->.
  - intros s -> Hs. cbv zeta.
    split; [apply split_join|]. split; [apply split_pieces|].
    split; [apply strip_spec|].
    unfold summarize_addresses.
    replace (truthy_opt (Some s)) with true by now destruct s.
    simpl negb. cbv iota. simpl default.
    change (List.map (fun a => clean_value (PStr (strip a))) (split SEMICOLON s))
      with (List.map (fun a => remove_char NUL (strip a)) (split SEMICOLON s)).
    set (entries := List.map _ (split SEMICOLON s)).
    split.
    + intros [->|Hle].
      * reflexivity.
      * destruct (Z.eqb_spec limit 0); [reflexivity|].
        destruct (Z.leb_spec (Z.of_nat (length entries)) limit); [reflexivity|lia].
    + intros H1 Hlt. split; [rewrite length_firstn; lia|].
      destruct (Z.eqb_spec limit 0); [lia|].
      destruct (Z.leb_spec (Z.of_nat (length entries)) limit); [lia|].
      simpl orb. cbv iota.
      rewrite slice_to_nonneg by lia. rewrite str_of_Z_nonneg by lia.
      do 4 f_equal. lia.
Qed.

(** ** Attachments *)

Lemma attachment_name_retained filepath att :
  attachment_name filepath att =
  if retained att then Some (saved_name filepath att) else None.
Proof.
  unfold attachment_name, retained, saved_name, chosen_name, py_or_opt.
  destruct (truthy_opt (longFilename att)) eqn:El; simpl.
  - now rewrite El.
  - now destruct (truthy_opt (shortFilename att)).
Qed.

Lemma find_app_last {A} (f : A -> bool) l x :
  List.find f (l ++ [x]) =
  match List.find f l with
  | Some y => Some y
  | None => if f x then Some x else None
  end.
Proof.
  induction l as [|y l IH]; simpl; [reflexivity|]. now destruct (f y).
Qed.

(** Last writer wins. *)
Lemma write_all_lookup (writes : list (pystr * list N)) (files : filesystem)
    (p : pystr) :
  write_all writes files !! p =
  match last_write p writes with
  | Some d => Some d
  | None => files !! p
  end.
Proof.
  unfold write_all, last_write. revert files.
  induction writes as [|[q d] ws IH]; intros files; [reflexivity|].
  simpl fold_left. rewrite IH. simpl rev. rewrite find_app_last.
  destruct (List.find _ (rev ws)); [reflexivity|]. simpl.
  destruct (bool_decide_reflect (q = p)) as [->|Hne]; simpl.
  - apply lookup_insert_eq.
  - now apply lookup_insert_ne.
Qed.

Lemma save_attachments_saves (filepath attachments_dir : pystr)
    (atts : list attachment) (acc : list pystr) (files : filesystem) :
  Forall (fun att => open_wb_error
                       (path_join attachments_dir (saved_name filepath att)) = None)
         (List.filter retained atts) ->
  save_attachments filepath attachments_dir atts acc files =
  (write_all (List.map (fun att => (path_join attachments_dir
                                      (saved_name filepath att), data att))
                       (List.filter retained atts)) files,
   inr (acc ++ List.map (fun att => remove_char NUL (saved_name filepath att))
                        (List.filter retained atts))).
Proof.
  revert acc files. induction atts as [|att atts IH]; intros acc files Hok.
  - simpl. now rewrite app_nil_r.
  - simpl save_attachments. rewrite attachment_name_retained.
    simpl List.filter in *. destruct (retained att).
    + inversion Hok as [|? ? Hw Hrest]; subst. rewrite Hw.
      rewrite IH by exact Hrest. simpl. now rewrite <- app_assoc.
    + now apply IH.
Qed.

Lemma safe_filename_nul_free name : ~ In NUL (safe_filename name).
Proof.
  rewrite safe_filename_spec. cbv zeta.
  destruct (truthy _).
  2: { intros Hin. vm_compute in Hin.
       repeat (destruct Hin as [Hin|Hin]; [discriminate|]). exact Hin. }
  intros Hin. apply in_map_iff in Hin as (x & Hx & Hin).
  apply filter_In in Hin as [_ Hc].
  destruct (is_forbidden x); [discriminate|]. subst x. discriminate.
Qed.

(** C6: the attachment loop skips exactly the entries that have
    neither a long nor a short name, and raises nothing for them; when
    every file can be opened, each kept entry's payload is written to
    the attachments directory under the stem of the source file, an
    underscore and the sanitized long name (the short one when there
    is no long one), a later write to the same path replacing an
    earlier one and any file that was there; the names are returned
    in the order of the attachments. *)
Theorem attachments_saved_in_order :
  forall (filepath attachments_dir : pystr) (atts : list attachment)
         (files : filesystem),
    let kept := List.filter retained atts in
    let names := List.map (saved_name filepath) kept in
    let writes :=
      List.map (fun att => (path_join attachments_dir (saved_name filepath att),
                            data att)) kept in
    (forall att,
        attachment_name filepath att = None <->
        truthy_opt (longFilename att) = false
        /\ truthy_opt (shortFilename att) = false)
    /\ (forall att name,
        attachment_name filepath att = Some name ->
        name = stem filepath ++ u "_" ++ safe_filename (chosen_name att)
        /\ (truthy_opt (longFilename att) = true ->
            Some (chosen_name att) = longFilename att)
        /\ (truthy_opt (longFilename att) = false ->
            Some (chosen_name att) = shortFilename att))
    /\ (Forall (fun name => open_wb_error (path_join attachments_dir name) = None)
               names ->
        exists files',
          save_attachments filepath attachments_dir atts [] files
            = (files', inr (List.map (remove_char NUL) names))
          /\ files' = write_all writes files
          /\ (forall p, files' !! p = match last_write p writes with
                                      | Some d => Some d
                                      | None => files !! p
                                      end)
          /\ (~ In NUL (stem filepath) ->
              List.map (remove_char NUL) names = names)).
Proof.
  intros filepath attachments_dir atts files. cbv zeta.
  split; [|split].
  - intros att. rewrite attachment_name_retained. unfold retained.
    destruct (truthy_opt (longFilename att)), (truthy_opt (shortFilename att));
      simpl; split; try discriminate; try (intros [? ?]; discriminate);
      try (split; reflexivity).
  - intros att name. rewrite attachment_name_retained.
    destruct (retained att) eqn:Er; [|discriminate]. intros [= <-].
    split; [reflexivity|]. unfold chosen_name, retained in *.
    destruct (longFilename att) as [l|]; simpl in *.
    + destruct (truthy l); simpl in *; split; try discriminate; try reflexivity.
      intros _. destruct (shortFilename att); [reflexivity|discriminate].
    + split; [discriminate|]. intros _.
      destruct (shortFilename att); [reflexivity|discriminate].
  - intros Hok. eexists. split; [|split; [reflexivity|split]].
    + rewrite save_attachments_saves.
      * simpl. now rewrite List.map_map.
      * rewrite List.Forall_forall in *. intros att Hatt. apply Hok.
        now apply List.in_map.
    + intros p. apply write_all_lookup.
    + intros Hstem. erewrite List.map_ext_in; [apply List.map_id|].
      intros name Hin.
      apply in_map_iff in Hin as (att & <- & _).
      apply remove_char_id. unfold saved_name. intros Hin.
      apply in_app_or in Hin as [H|H]; [contradiction|].
      apply in_app_or in H as [H|H].
      * vm_compute in H. destruct H as [H|H]; [discriminate|exact H].
      * now apply safe_filename_nul_free in H.
Qed.

(** ** Task results and the result loop *)

Lemma save_attachments_outcome (filepath attachments_dir : pystr)
    (atts : list attachment) (acc : list pystr) (files1 files2 : filesystem) :
  snd (save_attachments filepath attachments_dir atts acc files1)
  = snd (save_attachments filepath attachments_dir atts acc files2).
Proof.
  revert acc files1 files2.
  induction atts as [|att atts IH]; intros acc files1 files2; [reflexivity|].
  simpl. destruct (attachment_name filepath att) as [name|]; [|apply IH].
  destruct (open_wb_error _); [reflexivity|apply IH].
Qed.

(** What a task answers does not depend on the files already there. *)
Lemma process_msg_file_outcome (filepath attachments_dir : pystr)
    (from_limit to_limit : Z) (strip_tags : bool) (files : filesystem) :
  snd (process_msg_file filepath attachments_dir from_limit to_limit
         strip_tags files)
  = task_outcome attachments_dir from_limit to_limit strip_tags filepath.
Proof.
  unfold task_outcome, process_msg_file.
  destruct (extract_msg_Message filepath) as [e|msg]; [reflexivity|].
  pose proof (save_attachments_outcome filepath attachments_dir
                (attachments msg) [] files ∅) as H.
  destruct (save_attachments _ _ _ _ files) as [f1 [e1|n1]],
           (save_attachments _ _ _ _ ∅) as [f2 [e2|n2]];
    simpl in H; try discriminate; now injection H as ->.
Qed.

Lemma error_message_truthy filepath e : truthy (error_message filepath e) = true.
Proof. reflexivity. Qed.

(** A task answers a record or an error message, never both and
    never neither; the record is a non-empty dict and the message a
    non-empty string, so the loop's tests [if record] and [if error]
    tell them apart. *)
Lemma task_outcome_cases (attachments_dir : pystr) (from_limit to_limit : Z)
    (strip_tags : bool) (f : pystr) :
  (exists r, task_outcome attachments_dir from_limit to_limit strip_tags f
             = (Some r, None)
             /\ truthy_dict r = true
             /\ dict_get (u "SourceFile") (JStr []) r = JStr f)
  \/ (exists e, task_outcome attachments_dir from_limit to_limit strip_tags f
                = (None, Some (error_message f e))
                /\ truthy (error_message f e) = true).
Proof.
  unfold task_outcome, process_msg_file.
  destruct (extract_msg_Message f) as [e|msg].
  - right. exists e. split; reflexivity.
  - destruct (save_attachments _ _ _ _ _) as [files' [e|names]].
    + right. exists e. split; reflexivity.
    + left. eexists. split; [reflexivity|]. split; reflexivity.
Qed.

Lemma collect_appends (attachments_dir : pystr) (from_limit to_limit : Z)
    (strip_tags : bool) (st : run) (f : pystr) :
  let st' := collect attachments_dir from_limit to_limit strip_tags st f in
  run_out st' = run_out st
                ++ option_list (task_line attachments_dir from_limit to_limit
                                  strip_tags f)
  /\ run_errors st' = run_errors st
                      ++ option_list (task_error attachments_dir from_limit
                                        to_limit strip_tags f).
Proof.
  cbv zeta. unfold collect, task_line, task_error.
  pose proof (process_msg_file_outcome f attachments_dir from_limit to_limit
                strip_tags (run_files st)) as Ho.
  destruct (process_msg_file _ _ _ _ _ _) as [files' [record error]].
  simpl in Ho. rewrite <- Ho.
  destruct (task_outcome_cases attachments_dir from_limit to_limit strip_tags f)
    as [(r & Hr & Ht & _)|(e & He & Ht)]; rewrite <- Ho in *.
  - injection Hr as -> ->. simpl. rewrite Ht, app_nil_r. split; reflexivity.
  - injection He as -> ->. simpl. rewrite app_nil_r. split; reflexivity.
Qed.

Lemma run_batch_collects (attachments_dir : pystr) (from_limit to_limit : Z)
    (strip_tags : bool) (completed : list pystr) (st : run) :
  let st' := fold_left (collect attachments_dir from_limit to_limit strip_tags)
                       completed st in
  run_out st' = run_out st
                ++ omap (task_line attachments_dir from_limit to_limit strip_tags)
                        completed
  /\ run_errors st' = run_errors st
                      ++ omap (task_error attachments_dir from_limit to_limit
                                 strip_tags) completed.
Proof.
  cbv zeta. revert st. induction completed as [|f fs IH]; intros st.
  - simpl. now rewrite !app_nil_r.
  - simpl fold_left. destruct (IH (collect attachments_dir from_limit to_limit
                                      strip_tags st f)) as [-> ->].
    destruct (collect_appends attachments_dir from_limit to_limit strip_tags st f)
      as [-> ->].
    rewrite <- !app_assoc. split; f_equal.
    + simpl. now destruct (task_line _ _ _ _ f).
    + simpl. now destruct (task_error _ _ _ _ f).
Qed.

(** The record of a task carries its date as text, so the records of
    a run can always be compared by the reorder pass. *)
Lemma task_record_date_is_text (attachments_dir : pystr) (from_limit to_limit : Z)
    (strip_tags : bool) (f : pystr) (r : record) (e : option pystr) :
  task_outcome attachments_dir from_limit to_limit strip_tags f = (Some r, e) ->
  date_is_text r.
Proof.
  unfold task_outcome, process_msg_file.
  destruct (extract_msg_Message f) as [e'|msg]; [discriminate|].
  destruct (save_attachments _ _ _ _ _) as [files' [e'|names]]; [discriminate|].
  intros [= <- _]. exists (select_date msg). reflexivity.
Qed.

Lemma run_batch_records (attachments_dir : pystr) (from_limit to_limit : Z)
    (strip_tags : bool) (completed : list pystr) (files : filesystem) :
  exists records,
    run_out (run_batch attachments_dir from_limit to_limit strip_tags
               completed files)
    = List.map json_dumps records
    /\ Forall date_is_text records.
Proof.
  destruct (run_batch_collects attachments_dir from_limit to_limit strip_tags
              completed (mkRun files [] [])) as [Ho _].
  unfold run_batch. rewrite Ho. simpl. clear Ho.
  induction completed as [|f fs (records & IH & Ht)].
  - exists []. split; [reflexivity|constructor].
  - unfold omap in *. simpl. unfold task_line at 1.
    destruct (task_outcome attachments_dir from_limit to_limit strip_tags f)
      as [[r|] e] eqn:E; simpl.
    + exists (r :: records). split; [now rewrite IH|].
      constructor; [|exact Ht]. eapply task_record_date_is_text, E.
    + now exists records.
Qed.

Lemma omap_lengths {A B C} (g : A -> option B) (h : A -> option C) l :
  (forall x, (is_Some (g x) /\ h x = None) \/ (g x = None /\ is_Some (h x))) ->
  (length (omap g l) + length (omap h l))%nat = length l.
Proof.
  intros H. unfold omap. induction l as [|x l IH]; [reflexivity|]. simpl.
  destruct (H x) as [[[b ->] ->]|[-> [c ->]]]; simpl; lia.
Qed.

(** ** Sorting *)

Lemma str_ltb_irrefl a : str_ltb a a = false.
Proof.
  induction a as [|x a IH]; [reflexivity|]. simpl.
  now rewrite N.ltb_irrefl, N.eqb_refl.
Qed.

Lemma str_ltb_asym a b : str_ltb a b = true -> str_ltb b a = false.
Proof.
  revert b. induction a as [|x a IH]; intros [|y b]; simpl; try easy.
  destruct (N.ltb_spec x y), (N.ltb_spec y x), (N.eqb_spec x y), (N.eqb_spec y x);
    try lia; try easy. apply IH.
Qed.

(** "Not above" is transitive: the order on strings is total. *)
Lemma str_ltb_le_trans a b c :
  str_ltb b a = false -> str_ltb c b = false -> str_ltb c a = false.
Proof.
  revert b c. induction a as [|x a IH]; intros [|y b] [|z c]; simpl; try easy.
  destruct (N.ltb_spec y x), (N.ltb_spec z y), (N.ltb_spec z x),
           (N.eqb_spec y x), (N.eqb_spec z y), (N.eqb_spec z x);
    try lia; try easy. apply IH.
Qed.

(** The empty string is below every string. *)
Lemma str_ltb_nil s : str_ltb s [] = false.
Proof. now destruct s. Qed.

Section StableSort.

Context {A : Type} (ltb : A -> A -> bool).
Hypothesis ltb_asym : forall a b, ltb a b = true -> ltb b a = false.

Let le (a b : A) : Prop := ltb b a = false.

Lemma insert_stable_perm x l : Permutation (x :: l) (insert_stable ltb x l).
Proof.
  induction l as [|y l IH]; simpl; [reflexivity|].
  destruct (ltb y x); [|reflexivity].
  rewrite perm_swap. now constructor.
Qed.

Lemma sort_stable_perm l : Permutation l (sort_stable ltb l).
Proof.
  induction l as [|x l IH]; simpl; [constructor|].
  rewrite <- insert_stable_perm. now constructor.
Qed.

Lemma insert_stable_sorted x l :
  Sorted le l -> Sorted le (insert_stable ltb x l).
Proof using ltb_asym.
  induction 1 as [|y l Hs IH Hhd]; simpl.
  - repeat constructor.
  - destruct (ltb y x) eqn:E.
    + constructor; [exact IH|].
      destruct l as [|z l]; simpl.
      * constructor. unfold le. now apply ltb_asym.
      * inversion Hhd; subst. destruct (ltb z x).
        -- now constructor.
        -- constructor. unfold le. now apply ltb_asym.
    + constructor; [now constructor|]. constructor. exact E.
Qed.

Lemma sort_stable_sorted l : Sorted le (sort_stable ltb l).
Proof using ltb_asym.
  induction l as [|x l IH]; simpl; [constructor|].
  now apply insert_stable_sorted.
Qed.

(** Sorting a sorted list changes nothing. *)
Lemma sort_stable_fixed l : Sorted le l -> sort_stable ltb l = l.
Proof.
  induction 1 as [|x l Hs IH Hhd]; simpl; [reflexivity|].
  rewrite IH. destruct Hhd as [|y l Hxy]; simpl; [reflexivity|].
  unfold le in Hxy. now rewrite Hxy.
Qed.

(** Stability: elements that the order does not tell apart keep
    their relative order. *)
Lemma insert_stable_filter (p : A -> bool) x l :
  (forall a b, p a = true -> p b = true -> ltb a b = false) ->
  List.filter p (insert_stable ltb x l) = List.filter p (x :: l).
Proof.
  intros Hp. induction l as [|y l IH]; [reflexivity|].
  simpl insert_stable. destruct (ltb y x) eqn:E; [|reflexivity].
  simpl in *. rewrite IH.
  destruct (p x) eqn:Ex, (p y) eqn:Ey; try reflexivity.
  rewrite (Hp y x Ey Ex) in E. discriminate.
Qed.

Lemma sort_stable_filter (p : A -> bool) l :
  (forall a b, p a = true -> p b = true -> ltb a b = false) ->
  List.filter p (sort_stable ltb l) = List.filter p l.
Proof.
  intros Hp. induction l as [|x l IH]; [reflexivity|].
  simpl sort_stable. rewrite insert_stable_filter by exact Hp.
  simpl. now rewrite IH.
Qed.

End StableSort.

Lemma Sorted_snoc {A} (R : A -> A -> Prop) l x :
  Sorted R l -> (forall y l', l = l' ++ [y] -> R y x) -> Sorted R (l ++ [x]).
Proof.
  induction 1 as [|y l Hs IH Hhd]; intros Hlast; simpl.
  - repeat constructor.
  - constructor.
    + apply IH. intros z l' ->. now apply (Hlast z (y :: l')).
    + destruct Hhd as [|z l Hyz]; simpl; constructor.
      * now apply (Hlast y []).
      * exact Hyz.
Qed.

Lemma Sorted_rev {A} (R : A -> A -> Prop) l :
  Sorted R l -> Sorted (fun a b => R b a) (rev l).
Proof.
  induction 1 as [|x l Hs IH Hhd]; simpl; [constructor|].
  apply Sorted_snoc; [exact IH|].
  intros y l' Hl. destruct Hhd as [|z l Hxz]; simpl in Hl.
  - now destruct l'.
  - assert (Hr : rev (rev l ++ [z]) = rev (l' ++ [y])) by now rewrite Hl.
    rewrite !rev_app_distr in Hr. simpl in Hr. now injection Hr as <- _.
Qed.

Lemma filter_rev {A} (p : A -> bool) l :
  List.filter p (rev l) = rev (List.filter p l).
Proof.
  induction l as [|x l IH]; [reflexivity|]. simpl.
  rewrite List.filter_app, IH. simpl. destruct (p x); simpl.
  - reflexivity.
  - now rewrite app_nil_r.
Qed.

Lemma date_ltb_asym a b : date_ltb a b = true -> date_ltb b a = false.
Proof. apply str_ltb_asym. Qed.

Lemma value_lt_text a b :
  date_is_text a -> date_is_text b ->
  value_lt (date_key a) (date_key b) = Some (date_ltb a b).
Proof.
  intros [x Hx] [y Hy]. unfold date_ltb, date_text. now rewrite Hx, Hy.
Qed.

Lemma insert_by_date_text x l :
  date_is_text x -> Forall date_is_text l ->
  insert_by_date x l = Some (insert_stable date_ltb x l).
Proof.
  intros Hx. induction 1 as [|y l Hy Hl IH]; simpl; [reflexivity|].
  rewrite (value_lt_text y x Hy Hx).
  destruct (date_ltb y x); [|reflexivity]. now rewrite IH.
Qed.

Lemma sort_by_date_text l :
  Forall date_is_text l -> sort_by_date l = Some (sort_stable date_ltb l).
Proof.
  induction 1 as [|x l Hx Hl IH]; simpl; [reflexivity|].
  rewrite IH. simpl. apply insert_by_date_text; [exact Hx|].
  eapply Permutation_Forall; [apply sort_stable_perm|exact Hl].
Qed.

(** On records whose dates are all text no comparison raises, and
    [list.sort] answers [sorted_by_date]. *)
Lemma list_sort_text reverse l :
  Forall date_is_text l -> list_sort reverse l = Some (sorted_by_date reverse l).
Proof.
  intros Hl. unfold list_sort, sorted_by_date. destruct reverse.
  - rewrite sort_by_date_text; [reflexivity|].
    eapply Permutation_Forall; [apply Permutation_rev|exact Hl].
  - now apply sort_by_date_text.
Qed.

Lemma sorted_by_date_perm reverse l : Permutation l (sorted_by_date reverse l).
Proof.
  unfold sorted_by_date. destruct reverse; [|apply sort_stable_perm].
  rewrite <- Permutation_rev, <- sort_stable_perm. apply Permutation_rev.
Qed.

Lemma date_le_trans a b c : date_le a b -> date_le b c -> date_le a c.
Proof. unfold date_le, date_ltb. intros H1 H2. eapply str_ltb_le_trans; eauto. Qed.

Lemma date_ge_trans a b c : date_ge a b -> date_ge b c -> date_ge a c.
Proof. unfold date_ge, date_ltb. intros H1 H2. eapply str_ltb_le_trans; eauto. Qed.

Lemma sorted_by_date_order reverse l : in_date_order reverse (sorted_by_date reverse l).
Proof.
  unfold sorted_by_date, in_date_order. destruct reverse.
  - apply Sorted_StronglySorted; [exact date_ge_trans|].
    apply (Sorted_rev (fun a b => date_ltb b a = false)).
    apply sort_stable_sorted, date_ltb_asym.
  - apply Sorted_StronglySorted; [exact date_le_trans|].
    apply sort_stable_sorted, date_ltb_asym.
Qed.

Lemma sorted_by_date_stable reverse l k :
  with_date k (sorted_by_date reverse l) = with_date k l.
Proof.
  assert (Hp : forall a b : record,
             bool_decide (date_text a = k) = true ->
             bool_decide (date_text b = k) = true -> date_ltb a b = false).
  { intros a b Ha%bool_decide_eq_true Hb%bool_decide_eq_true.
    unfold date_ltb. rewrite Ha, Hb. apply str_ltb_irrefl. }
  unfold with_date, sorted_by_date. destruct reverse.
  - rewrite filter_rev, sort_stable_filter by exact Hp.
    rewrite filter_rev. apply rev_involutive.
  - now apply sort_stable_filter.
Qed.

Lemma sorted_by_date_fixed reverse l :
  sorted_by_date reverse (sorted_by_date reverse l) = sorted_by_date reverse l.
Proof.
  unfold sorted_by_date. destruct reverse.
  - rewrite rev_involutive. f_equal.
    apply sort_stable_fixed, sort_stable_sorted, date_ltb_asym.
  - apply sort_stable_fixed, sort_stable_sorted, date_ltb_asym.
Qed.

Lemma mapM_loads_dumps (rs : list record) :
  Forall reads_back rs ->
  mapM json_loads (List.map json_dumps rs) = Some rs.
Proof.
  induction 1 as [|r rs Hr Hrs IH]; [reflexivity|].
  simpl. rewrite Hr. simpl. rewrite IH. reflexivity.
Qed.

(** The pass over a file written from records with text dates. *)
Lemma rewrite_sorted_text reverse (rs : list record) :
  Forall reads_back rs ->
  Forall date_is_text rs ->
  rewrite_sorted reverse (List.map json_dumps rs)
  = Some (List.map json_dumps (sorted_by_date reverse rs)).
Proof.
  intros Hrt Hrs. unfold rewrite_sorted.
  rewrite mapM_loads_dumps by exact Hrt. simpl.
  rewrite list_sort_text by exact Hrs. reflexivity.
Qed.

Lemma reorder_pass_runs sort_date out :
  sort_date <> u "none" ->
  reorder_pass sort_date out
  = rewrite_sorted (bool_decide (sort_date = u "desc")) out.
Proof.
  intros H. unfold reorder_pass. now rewrite bool_decide_eq_true_2.
Qed.

Lemma date_key_missing (r : record) :
  ~ In (u "Date") (List.map fst r) -> date_key r = JStr [].
Proof.
  unfold date_key. induction r as [|[k v] r IH]; simpl; [reflexivity|].
  intros H. destruct (bool_decide_reflect (k = u "Date")) as [->|Hk].
  - exfalso. apply H. now left.
  - apply IH. intros Hin. apply H. now right.
Qed.

(** C3: for a sort mode other than [none] and an output file written
    from records whose dates are text (the JSON codec reading back
    what it wrote), the reorder pass reads every record, sorts them by
    the [Date] string and rewrites the file from the sorted sequence:
    the new file holds the same records, in ascending order of the
    date, or in descending order exactly when the mode is [desc];
    records of equal date keep their order; a record without a
    [Date] has the empty key, and the empty key is the lowest;
    running the pass again on the file it wrote, in mode [asc] as in
    any other mode, leaves the same lines and so the same text. *)
Theorem reorder_pass_sorts_stably_and_is_idempotent :
  forall (sort_date : pystr) (records : list record),
    Forall reads_back records ->
    Forall date_is_text records ->
    sort_date <> u "none" ->
    let reverse := bool_decide (sort_date = u "desc") in
    exists sorted,
      reorder_pass sort_date (List.map json_dumps records)
        = Some (List.map json_dumps sorted)
      /\ Permutation records sorted
      /\ in_date_order reverse sorted
      /\ (forall k, with_date k sorted = with_date k records)
      /\ (forall r, ~ In (u "Date") (List.map fst r) -> date_text r = [])
      /\ (forall a b, date_text a = [] -> date_le a b /\ date_ge b a)
      /\ reorder_pass sort_date (List.map json_dumps sorted)
           = Some (List.map json_dumps sorted)
      /\ (forall once twice,
             reorder_pass (u "asc") (List.map json_dumps records) = Some once ->
             reorder_pass (u "asc") once = Some twice ->
             twice = once /\ file_text twice = file_text once).
Proof.
  intros sort_date records Hrt Htext Hmode reverse.
  exists (sorted_by_date reverse records).
  assert (Hsorted : forall rev0, Forall date_is_text (sorted_by_date rev0 records)).
  { intros rev0. eapply Permutation_Forall; [apply sorted_by_date_perm|exact Htext]. }
  assert (Hback : forall rev0, Forall reads_back (sorted_by_date rev0 records)).
  { intros rev0. eapply Permutation_Forall; [apply sorted_by_date_perm|exact Hrt]. }
  rewrite !reorder_pass_runs by exact Hmode. fold reverse.
  rewrite !rewrite_sorted_text
    by (try exact Hrt; try exact Htext; try apply Hsorted; apply Hback).
  rewrite sorted_by_date_fixed.
  split; [reflexivity|]. split; [apply sorted_by_date_perm|].
  split; [apply sorted_by_date_order|].
  split; [intros k; apply sorted_by_date_stable|].
  split; [intros r Hr; unfold date_text; now rewrite date_key_missing|].
  split; [intros a b Ha; unfold date_le, date_ge, date_ltb; rewrite Ha;
          split; apply str_ltb_nil|].
  split; [reflexivity|].
  intros once twice H1 H2.
  rewrite reorder_pass_runs in H1, H2 by discriminate.
  change (bool_decide (u "asc" = u "desc")) with false in H1, H2.
  rewrite rewrite_sorted_text in H1 by assumption.
  apply (inj Some) in H1. subst once.
  rewrite rewrite_sorted_text in H2 by (apply (Hback false) || apply (Hsorted false)).
  rewrite sorted_by_date_fixed in H2.
  apply (inj Some) in H2. subst twice. split; reflexivity.
Qed.

(** C9: the sort mode is compared with two literals and with nothing
    else.  The mode [none], spelled exactly so, leaves the file alone;
    every other string runs the pass, which sorts in descending order
    when the mode is exactly [desc] and in ascending order for any
    other spelling ([Asc], [NONE], a typing mistake), without raising
    and without skipping the pass. *)
Theorem sort_mode_is_not_validated :
  forall (sort_date : pystr) (out : list pystr),
    (sort_date = u "none" -> reorder_pass sort_date out = Some out)
    /\ (sort_date <> u "none" ->
        reorder_pass sort_date out
        = rewrite_sorted (bool_decide (sort_date = u "desc")) out)
    /\ (sort_date <> u "none" -> sort_date <> u "desc" ->
        reorder_pass sort_date out = rewrite_sorted false out
        /\ reorder_pass sort_date out = reorder_pass (u "asc") out)
    /\ reorder_pass (u "desc") out = rewrite_sorted true out
    /\ reorder_pass (u "Asc") out = reorder_pass (u "asc") out
    /\ reorder_pass (u "NONE") out = reorder_pass (u "asc") out
    /\ reorder_pass (u "ascending") out = reorder_pass (u "asc") out
    /\ (forall (reverse : bool) (records : list record),
           Forall reads_back records ->
           Forall date_is_text records ->
           exists sorted,
             rewrite_sorted reverse (List.map json_dumps records)
               = Some (List.map json_dumps sorted)
             /\ Permutation records sorted
             /\ in_date_order reverse sorted).
Proof.
  intros sort_date out.
  split; [intros ->; reflexivity|].
  split; [apply reorder_pass_runs|].
  split.
  { intros Hn Hd. rewrite reorder_pass_runs by exact Hn.
    rewrite bool_decide_eq_false_2 by exact Hd. split; reflexivity. }
  repeat (split; [reflexivity|]).
  intros reverse records Hrt Htext. exists (sorted_by_date reverse records).
  split; [now apply rewrite_sorted_text|].
  split; [apply sorted_by_date_perm|apply sorted_by_date_order].
Qed.

(** * Further properties *)

(** ** More on [summarize_addresses] *)

Lemma summarize_addresses_entries s limit :
  s <> [] ->
  summarize_addresses (Some s) limit =
  let addr_list := List.map (fun a => remove_char NUL (strip a)) (split SEMICOLON s) in
  if (limit =? 0)%Z || (Z.of_nat (length addr_list) <=? limit)%Z
  then join (u ", ") addr_list
  else join (u ", ") (slice_to addr_list limit)
       ++ u ", and "
       ++ str_of_Z (Z.of_nat (length addr_list) - limit)
       ++ u " others".
Proof. intros Hs. unfold summarize_addresses. now destruct s. Qed.

(** X1: a negative limit is not rejected.  The slice [addr_list[:limit]]
    then drops the last [-limit] entries, and the suffix counts
    [count - limit] others, which is more than there are entries. *)
Theorem summarize_addresses_negative_limit :
  forall (s : pystr) (limit : Z),
    s <> [] -> (limit < 0)%Z ->
    let entries := List.map (fun a => remove_char NUL (strip a)) (split SEMICOLON s) in
    let count := length entries in
    let dropped := Z.to_nat (- limit) in
    summarize_addresses (Some s) limit =
    join (u ", ") (firstn (count - dropped) entries) ++ u ", and "
    ++ str_of_N (N.of_nat (count + dropped)) ++ u " others"
    /\ (count < count + dropped)%nat.
Proof.
  intros s limit Hs Hneg. cbv zeta.
  rewrite summarize_addresses_entries by exact Hs. cbv zeta.
  set (entries := List.map _ (split SEMICOLON s)).
  destruct (Z.eqb_spec limit 0); [lia|].
  destruct (Z.leb_spec (Z.of_nat (length entries)) limit); [lia|].
  simpl orb. cbv iota. split; [|lia].
  unfold slice_to. destruct (Z.leb_spec 0 limit); [lia|].
  rewrite str_of_Z_nonneg by lia.
  do 2 f_equal; [f_equal; lia|]. do 2 f_equal. lia.
Qed.

Lemma split_length c s : length (split c s) = S (count_char c s).
Proof.
  unfold count_char. induction s as [|x s IH]; [reflexivity|]. simpl.
  rewrite (N.eqb_sym c x).
  destruct (x =? c); simpl; [now rewrite IH|].
  pose proof (split_nonempty c s) as Hne.
  destruct (split c s) as [|p ps]; [congruence|exact IH].
Qed.

(** X2: the entries are counted by the separators: an address string
    with [k] semicolons has [k + 1] entries, empty ones included.  So
    for a limit of at least 1 the whole list is shown exactly when
    there are fewer semicolons than the limit, and otherwise the
    suffix counts [k + 1 - limit] others. *)
Theorem summarize_addresses_counts_separators :
  forall (s : pystr) (limit : Z),
    s <> [] -> (1 <= limit)%Z ->
    let entries := List.map (fun a => remove_char NUL (strip a)) (split SEMICOLON s) in
    let k := count_char SEMICOLON s in
    length entries = S k
    /\ ((Z.of_nat k < limit)%Z ->
        summarize_addresses (Some s) limit = join (u ", ") entries)
    /\ ((limit <= Z.of_nat k)%Z ->
        summarize_addresses (Some s) limit =
        join (u ", ") (firstn (Z.to_nat limit) entries) ++ u ", and "
        ++ str_of_N (N.of_nat (S k - Z.to_nat limit)) ++ u " others").
Proof.
  intros s limit Hs Hlimit. cbv zeta.
  assert (Hlen : length (List.map (fun a => remove_char NUL (strip a))
                                  (split SEMICOLON s))
                 = S (count_char SEMICOLON s))
    by (rewrite length_map; apply split_length).
  split; [exact Hlen|].
  rewrite summarize_addresses_entries by exact Hs. cbv zeta.
  rewrite Hlen. destruct (Z.eqb_spec limit 0); [lia|]. simpl orb.
  split; intros Hk.
  - destruct (Z.leb_spec (Z.of_nat (S (count_char SEMICOLON s))) limit);
      [reflexivity|lia].
  - destruct (Z.leb_spec (Z.of_nat (S (count_char SEMICOLON s))) limit); [lia|].
    rewrite slice_to_nonneg by lia. rewrite str_of_Z_nonneg by lia.
    do 4 f_equal. lia.
Qed.

Lemma join_Forall (P : N -> Prop) sep parts :
  Forall P sep -> Forall (Forall P) parts -> Forall P (join sep parts).
Proof.
  intros Hsep. induction 1 as [|p ps Hp Hps IH]; [constructor|].
  destruct ps as [|q ps]; [exact Hp|].
  rewrite join_cons. apply Forall_app. split; [exact Hp|].
  apply Forall_app. split; [exact Hsep|exact IH].
Qed.

Lemma string_of_uint_digits d :
  Forall (fun c => 48 <= c <= 57) (u (NilEmpty.string_of_uint d)).
Proof.
  induction d; simpl; constructor; try exact IHd; vm_compute; split; discriminate.
Qed.

(** [str] of an integer is a run of digits, after a minus sign when
    the integer is negative. *)
Lemma str_of_Z_chars z : Forall (fun c => c = 45 \/ 48 <= c <= 57) (str_of_Z z).
Proof.
  assert (HN : forall n, Forall (fun c => c = 45 \/ 48 <= c <= 57) (str_of_N n)).
  { intros n. unfold str_of_N, NilZero.string_of_uint.
    eapply List.Forall_impl; [intros c Hc; right; exact Hc|].
    destruct (N.to_uint n) eqn:E; try (rewrite <- E; apply string_of_uint_digits).
    repeat constructor; vm_compute; discriminate. }
  destruct z; simpl; try apply HN.
  constructor; [now left|apply HN].
Qed.

Lemma remove_char_Forall c s : Forall (fun x => x <> c) (remove_char c s).
Proof.
  apply List.Forall_forall. intros x Hin ->. now apply remove_char_not_in in Hin.
Qed.

Lemma summarize_addresses_no_nul :
  forall (addresses : option pystr) (limit : Z),
    Forall (fun c => c <> NUL) (summarize_addresses addresses limit).
Proof.
  intros addresses limit. unfold summarize_addresses.
  destruct (negb (truthy_opt addresses)); [constructor|]. cbv zeta.
  set (entries := List.map _ _).
  assert (He : Forall (Forall (fun c => c <> NUL)) entries).
  { apply List.Forall_forall. intros e Hin.
    apply in_map_iff in Hin as (a & <- & _). apply remove_char_Forall. }
  assert (Hsep : Forall (fun c => c <> NUL) (u ", "))
    by (repeat constructor; discriminate).
  destruct (_ || _); [now apply join_Forall|].
  repeat (apply Forall_app; split).
  - apply join_Forall; [exact Hsep|]. unfold slice_to.
    destruct (0 <=? limit)%Z; now apply Forall_take.
  - repeat constructor; discriminate.
  - eapply List.Forall_impl; [|apply str_of_Z_chars].
    intros c [->|[H _]]; [discriminate|]. intros ->. now apply H.
  - repeat constructor; discriminate.
Qed.

Lemma In_lstrip c s : In c (lstrip s) -> In c s.
Proof.
  induction s as [|x s IH]; simpl; [easy|].
  destruct (isspace x); [|easy]. intros H. right. now apply IH.
Qed.

Lemma In_strip c s : In c (strip s) -> In c s.
Proof.
  unfold strip, rstrip. intros H.
  apply In_lstrip. apply in_rev. apply In_lstrip. now apply in_rev.
Qed.

Lemma In_join c p sep parts : In p parts -> In c p -> In c (join sep parts).
Proof.
  induction parts as [|q parts IH]; [easy|]. intros Hp Hc.
  destruct parts as [|q' parts].
  - destruct Hp as [->|[]]. exact Hc.
  - rewrite join_cons. apply in_or_app. destruct Hp as [->|Hp]; [now left|].
    right. apply in_or_app. right. now apply IH.
Qed.

Lemma In_split c sep p s : In p (split sep s) -> In c p -> In c s.
Proof.
  intros Hp Hc. rewrite <- (split_join sep s). now apply (In_join c p).
Qed.

Lemma existsb_eqb_In c (l : pystr) : existsb (N.eqb c) l = true -> In c l.
Proof.
  intros H. apply existsb_exists in H as (x & Hx & E).
  apply N.eqb_eq in E. now subst.
Qed.

Lemma digit_in_template c :
  c = 45 \/ 48 <= c <= 57 -> In c (u ", and others-0123456789").
Proof.
  intros H. apply existsb_eqb_In.
  assert (E : c = 45 \/ c = 48 \/ c = 49 \/ c = 50 \/ c = 51 \/ c = 52 \/ c = 53
              \/ c = 54 \/ c = 55 \/ c = 56 \/ c = 57) by lia.
  repeat (destruct E as [->|E]; [reflexivity|]). now subst.
Qed.

(** X3: whatever the address string and the limit, negative ones
    included, the summary holds no NUL, and it holds no character
    that is not in the address string or in the fixed text of the
    separators, the suffix and the count. *)
Theorem summarize_addresses_nul_free :
  forall (addresses : option pystr) (limit : Z),
    Forall (fun c => c <> NUL
                     /\ (In c (default [] addresses)
                         \/ In c (u ", and others-0123456789")))
           (summarize_addresses addresses limit).
Proof.
  intros addresses limit. apply Forall_and. split.
  { apply summarize_addresses_no_nul. }
  unfold summarize_addresses.
  destruct (negb (truthy_opt addresses)); [constructor|]. cbv zeta.
  set (s := default [] addresses). set (entries := List.map _ _).
  set (P := fun c => In c s \/ In c (u ", and others-0123456789")).
  assert (He : Forall (Forall P) entries).
  { apply List.Forall_forall. intros e Hin.
    apply in_map_iff in Hin as (a & <- & Ha).
    apply List.Forall_forall. intros c Hc. left.
    simpl in Hc. apply filter_In in Hc as [Hc _].
    apply (In_split c SEMICOLON a); [exact Ha|now apply In_strip]. }
  assert (Hfixed : forall l,
             forallb (fun c => existsb (N.eqb c) (u ", and others-0123456789")) l
             = true -> Forall P l).
  { intros l Hl. rewrite forallb_forall in Hl. apply List.Forall_forall.
    intros c Hc. right. apply existsb_eqb_In. now apply Hl. }
  assert (Hsep : Forall P (u ", ")) by now apply Hfixed.
  destruct (_ || _); [now apply join_Forall|].
  repeat (apply Forall_app; split).
  - apply join_Forall; [exact Hsep|]. unfold slice_to.
    destruct (0 <=? limit)%Z; now apply Forall_take.
  - now apply Hfixed.
  - eapply List.Forall_impl; [|apply str_of_Z_chars].
    intros c Hc. right. now apply digit_in_template.
  - now apply Hfixed.
Qed.

(** ** More on [clean_value] *)

(** X4: cleaning is idempotent on what the message fields hold: for
    [None], a [bytes] payload or a [str], cleaning the cleaned text
    again changes nothing. *)
Theorem clean_value_idempotent :
  forall v, (forall str_of, v <> PObj str_of) ->
            clean_value (PStr (clean_value v)) = clean_value v.
Proof.
  intros v Hv. destruct v as [|b|s|o]; simpl.
  - reflexivity.
  - apply remove_char_id, remove_char_not_in.
  - apply remove_char_id, remove_char_not_in.
  - now destruct (Hv o).
Qed.

Lemma cp1252_table_ascii b : b < 128 -> cp1252_table b = Some b.
Proof.
  intros H. unfold cp1252_table.
  destruct b as [|p]; [reflexivity|].
  repeat (destruct p as [p|p|]; try reflexivity; try (exfalso; lia)).
Qed.

(** X5: the code page is single-byte: a payload is decoded into one
    character per octet that is not NUL, and an ASCII payload without
    NUL comes back as the same code points. *)
Theorem clean_value_bytes_one_char_per_octet :
  forall b,
    length (clean_value (PBytes b)) = length (remove_char NUL b)
    /\ (is_ascii b -> clean_value (PBytes b) = remove_char NUL b)
    /\ (is_ascii b -> ~ In NUL b -> clean_value (PBytes b) = b).
Proof.
  intros b. rewrite clean_value_bytes.
  assert (Hascii : is_ascii b ->
                   decode_cp1252_replace (remove_char NUL b) = remove_char NUL b).
  { intros Hb. unfold decode_cp1252_replace.
    erewrite List.map_ext_in; [apply List.map_id|].
    intros x Hx. apply filter_In in Hx as [Hx _].
    unfold is_ascii in Hb. rewrite List.Forall_forall in Hb.
    now rewrite cp1252_table_ascii by auto. }
  split; [unfold decode_cp1252_replace; apply length_map|].
  split; [exact Hascii|].
  intros Hb Hnul. rewrite Hascii by exact Hb. now apply remove_char_id.
Qed.

(** ** More on [safe_filename] and [strip_html_tags] *)

Lemma safe_filename_chars name :
  forallb (fun c => negb (is_control c) && negb (is_forbidden c))
          (safe_filename name) = true.
Proof.
  rewrite safe_filename_spec. cbv zeta.
  destruct (truthy _) eqn:E; [|vm_compute; reflexivity].
  apply forallb_forall. intros c Hin.
  apply in_map_iff in Hin as (x & <- & Hin).
  apply filter_In in Hin as [_ Hx].
  destruct (is_forbidden x) eqn:Hf; [reflexivity|].
  rewrite Hf. unfold is_control in *. now rewrite Hx.
Qed.

Lemma safe_filename_nonempty name : safe_filename name <> [].
Proof.
  rewrite safe_filename_spec. cbv zeta.
  destruct (List.map _ _) eqn:E; simpl; discriminate.
Qed.

Lemma safe_filename_clean name :
  forallb (fun c => negb (is_control c) && negb (is_forbidden c)) name = true ->
  name <> [] -> safe_filename name = name.
Proof.
  intros Hok Hne. rewrite forallb_forall in Hok. unfold safe_filename.
  assert (Hf : List.filter (fun c => negb (is_control c)) name = name).
  { clear Hne. induction name as [|c name IH]; [reflexivity|]. simpl.
    pose proof (Hok c (or_introl eq_refl)) as Hc.
    apply andb_prop in Hc as [Hc _]. rewrite Hc. f_equal. apply IH. intros x Hx. apply Hok. now right. }
  rewrite Hf.
  assert (Hm : List.map (fun c => if is_forbidden c then UNDERSCORE else c) name
               = name).
  { erewrite List.map_ext_in; [apply List.map_id|].
    intros c Hc. pose proof (Hok c Hc) as Hb.
    apply andb_prop in Hb as [_ Hb]. now destruct (is_forbidden c). }
  rewrite Hm. now destruct name.
Qed.

(** X6: a sanitized name is a name [safe_filename] leaves alone, so
    sanitizing twice is sanitizing once; and the result is never
    longer than the longer of the name and the placeholder. *)
Theorem safe_filename_idempotent :
  forall name,
    safe_filename (safe_filename name) = safe_filename name
    /\ (length (safe_filename name)
        <= Nat.max (length name) (length unnamed_attachment))%nat.
Proof.
  intros name. split.
  - apply safe_filename_clean;
      [apply safe_filename_chars|apply safe_filename_nonempty].
  - rewrite safe_filename_spec. cbv zeta. destruct (truthy _); [|lia].
    rewrite length_map.
    pose proof (List.filter_length_le (fun c => negb (is_control c)) name). lia.
Qed.

Lemma strip_html_tags_Some s : strip_html_tags (Some s) = Some (re_sub_tags s).
Proof. now destruct s. Qed.

(** X7: stripping the markup twice is stripping it once, and
    stripping never makes a text longer. *)
Theorem strip_html_tags_idempotent :
  forall s, exists r,
    strip_html_tags (Some s) = Some r
    /\ strip_html_tags (Some r) = Some r
    /\ (length r <= length s)%nat.
Proof.
  intros s. exists (re_sub_tags s). rewrite !strip_html_tags_Some.
  split; [reflexivity|]. split.
  - f_equal. apply re_sub_tags_without_tag, re_sub_tags_no_tag.
  - apply sublist_length, re_sub_tags_sublist.
Qed.

(** ** More on the attachment loop *)

Lemma save_attachments_app (filepath dir : pystr) (pre post : list attachment)
    (acc : list pystr) (files : filesystem) :
  save_attachments filepath dir (pre ++ post) acc files =
  match save_attachments filepath dir pre acc files with
  | (files', inr names) => save_attachments filepath dir post names files'
  | (files', inl e) => (files', inl e)
  end.
Proof.
  revert acc files. induction pre as [|att pre IH]; intros acc files; [reflexivity|].
  simpl. destruct (attachment_name filepath att) as [name|]; [|apply IH].
  destruct (open_wb_error _); [reflexivity|apply IH].
Qed.

(** X8: when the file of an attachment cannot be opened, the task
    fails with that exception in its message; the attachments before
    it have been written and stay written (nothing is rolled back),
    and the attachments after it are not written. *)
Theorem failed_attachment_leaves_earlier_files :
  forall (filepath dir : pystr) (fl tl : Z) (st : bool) (files : filesystem)
         (msg : Message) (pre post : list attachment) (att : attachment) (e : exn),
    extract_msg_Message filepath = inr msg ->
    attachments msg = pre ++ att :: post ->
    Forall (fun a => open_wb_error (path_join dir (saved_name filepath a)) = None)
           (List.filter retained pre) ->
    retained att = true ->
    open_wb_error (path_join dir (saved_name filepath att)) = Some e ->
    process_msg_file filepath dir fl tl st files
    = (write_all (attachment_writes filepath dir pre) files,
       (None, Some (error_message filepath e)))
    /\ (forall p, write_all (attachment_writes filepath dir pre) files !! p
                  = match last_write p (attachment_writes filepath dir pre) with
                    | Some d => Some d
                    | None => files !! p
                    end).
Proof.
  intros filepath dir fl tl st files msg pre post att e Hd Hatts Hpre Hret Hopen.
  split; [|intros p; apply write_all_lookup].
  rewrite (process_msg_file_decoded _ _ _ _ _ _ _ Hd), Hatts.
  rewrite save_attachments_app, save_attachments_saves by exact Hpre.
  simpl. rewrite attachment_name_retained, Hret, Hopen. reflexivity.
Qed.

Lemma save_attachments_frame (filepath dir : pystr) (atts : list attachment)
    (acc : list pystr) (files : filesystem) (p : pystr) :
  (forall name, p <> path_join dir (stem filepath ++ u "_" ++ name)) ->
  fst (save_attachments filepath dir atts acc files) !! p = files !! p.
Proof.
  intros Hp. revert acc files.
  induction atts as [|att atts IH]; intros acc files; [reflexivity|].
  simpl. rewrite attachment_name_retained.
  destruct (retained att); [|apply IH].
  destruct (open_wb_error _); [reflexivity|].
  rewrite IH. apply lookup_insert_ne. intros H. symmetry in H.
  now apply Hp in H.
Qed.

Lemma process_msg_file_frame (filepath dir : pystr) (fl tl : Z) (st : bool)
    (files : filesystem) (p : pystr) :
  (forall name, p <> path_join dir (stem filepath ++ u "_" ++ name)) ->
  fst (process_msg_file filepath dir fl tl st files) !! p = files !! p.
Proof.
  intros Hp. unfold process_msg_file.
  destruct (extract_msg_Message filepath) as [e|msg]; [reflexivity|].
  pose proof (save_attachments_frame filepath dir (attachments msg) [] files p Hp)
    as H.
  now destruct (save_attachments _ _ _ _ _) as [files' [e|names]].
Qed.

Lemma save_attachments_touches (filepath dir : pystr) (atts : list attachment)
    (acc : list pystr) (files : filesystem) (p : pystr) :
  (forall att, In att atts -> retained att = true ->
               p <> path_join dir (saved_name filepath att)) ->
  fst (save_attachments filepath dir atts acc files) !! p = files !! p.
Proof.
  revert acc files. induction atts as [|att atts IH]; intros acc files Hp;
    [reflexivity|].
  simpl. rewrite attachment_name_retained.
  destruct (retained att) eqn:Hr.
  - destruct (open_wb_error _); [reflexivity|].
    rewrite IH by (intros a Ha; apply Hp; now right).
    apply lookup_insert_ne. intros H. symmetry in H. revert H.
    apply Hp; [now left|exact Hr].
  - apply IH. intros a Ha. apply Hp. now right.
Qed.

(** X9: a task writes nowhere but to the paths of the attachments it
    keeps.  When the decoder rejects the file the task writes
    nothing; otherwise a path that is not the attachments directory
    joined with the saved name of one of the kept attachments holds
    after the task what it held before, whether the task then
    succeeds or fails; in particular this is so for every path that
    is not the attachments directory joined with the stem of the
    source file, an underscore and a name. *)
Theorem task_writes_only_attachment_paths :
  forall (filepath dir : pystr) (fl tl : Z) (st : bool) (files : filesystem)
         (p : pystr),
    (forall e, extract_msg_Message filepath = inl e ->
               fst (process_msg_file filepath dir fl tl st files) = files)
    /\ (forall msg,
           extract_msg_Message filepath = inr msg ->
           (forall att, In att (attachments msg) -> retained att = true ->
                        p <> path_join dir (saved_name filepath att)) ->
           fst (process_msg_file filepath dir fl tl st files) !! p = files !! p)
    /\ ((forall name, p <> path_join dir (stem filepath ++ u "_" ++ name)) ->
        fst (process_msg_file filepath dir fl tl st files) !! p = files !! p).
Proof.
  intros filepath dir fl tl st files p. split; [|split].
  - intros e H. unfold process_msg_file. now rewrite H.
  - intros msg Hd Hp. rewrite (process_msg_file_decoded _ _ _ _ _ _ _ Hd).
    pose proof (save_attachments_touches filepath dir (attachments msg) []
                  files p Hp) as H.
    now destruct (save_attachments _ _ _ _ _) as [files' [e|names]].
  - apply process_msg_file_frame.
Qed.

(** X10: the name an attachment is saved under cannot lead out of the
    attachments directory: when the stem of the source file holds no
    slash and no backslash, the name holds none either, and it is
    neither empty nor one of the names [.] and [..]; what follows the
    stem and the underscore holds no control character and none of
    the characters [safe_filename] replaces. *)
Theorem saved_name_stays_in_directory :
  forall (filepath : pystr) (att : attachment) (name : pystr),
    attachment_name filepath att = Some name ->
    (exists tail, name = stem filepath ++ u "_" ++ tail
                  /\ tail <> []
                  /\ forallb (fun c => negb (is_control c) && negb (is_forbidden c))
                             tail = true)
    /\ name <> [] /\ name <> u "." /\ name <> u ".."
    /\ (Forall (fun c => c <> 47 /\ c <> 92) (stem filepath) ->
        Forall (fun c => c <> 47 /\ c <> 92) name).
Proof.
  intros filepath att name. rewrite attachment_name_retained.
  destruct (retained att); [|discriminate]. intros [= <-].
  unfold saved_name. set (tail := safe_filename (chosen_name att)).
  assert (Hin : In UNDERSCORE (stem filepath ++ u "_" ++ tail)).
  { apply in_or_app. right. now left. }
  split; [|split; [|split; [|split]]].
  - exists tail. split; [reflexivity|].
    split; [apply safe_filename_nonempty|apply safe_filename_chars].
  - intros H. rewrite H in Hin. contradiction.
  - intros H. rewrite H in Hin. vm_compute in Hin.
    destruct Hin as [Hin|Hin]; [discriminate|exact Hin].
  - intros H. rewrite H in Hin. vm_compute in Hin.
    destruct Hin as [Hin|[Hin|Hin]]; [discriminate|discriminate|exact Hin].
  - intros Hstem. apply Forall_app. split; [exact Hstem|].
    apply Forall_app. split; [repeat constructor; discriminate|].
    pose proof (safe_filename_chars (chosen_name att)) as Hc.
    rewrite forallb_forall in Hc. apply List.Forall_forall. intros c Hc'.
    specialize (Hc c Hc'). apply andb_prop in Hc as [_ Hf].
    unfold is_forbidden in Hf.
    split; intros ->; vm_compute in Hf; discriminate.
Qed.

(** ** More on the record of a task *)

Lemma save_attachments_names_clean (filepath dir : pystr)
    (atts : list attachment) (acc : list pystr) (files files' : filesystem)
    (names : list pystr) :
  save_attachments filepath dir atts acc files = (files', inr names) ->
  Forall (Forall (fun c => c <> NUL)) acc ->
  Forall (Forall (fun c => c <> NUL)) names.
Proof.
  revert acc files. induction atts as [|att atts IH]; intros acc files H Hacc.
  - simpl in H. now injection H as _ <-.
  - simpl in H. destruct (attachment_name filepath att) as [name|]; [|eauto].
    destruct (open_wb_error _); [discriminate|].
    eapply IH; [exact H|]. apply Forall_app. split; [exact Hacc|].
    constructor; [apply remove_char_Forall|constructor].
Qed.

Lemma clean_value_text_nul_free v :
  (forall str_of, v <> PObj str_of) -> Forall (fun c => c <> NUL) (clean_value v).
Proof.
  intros Hv. destruct v as [|b|s|o]; simpl.
  - constructor.
  - apply remove_char_Forall.
  - apply remove_char_Forall.
  - now destruct (Hv o).
Qed.

Lemma select_body_nul_free msg st :
  (forall o, htmlBody msg <> PObj o) -> (forall o, body msg <> PObj o) ->
  Forall (fun c => c <> NUL) (select_body msg st).
Proof.
  intros Hh Hb. rewrite select_body_chosen. cbv zeta.
  assert (Hc : Forall (fun c => c <> NUL)
                 (if truthy (clean_value (htmlBody msg))
                  then clean_value (htmlBody msg) else clean_value (body msg))).
  { destruct (truthy _); now apply clean_value_text_nul_free. }
  destruct st; [|exact Hc].
  rewrite List.Forall_forall in *. intros c Hin. apply Hc.
  apply list_elem_of_In. eapply elem_of_sublist; [|apply re_sub_tags_sublist].
  now apply list_elem_of_In.
Qed.

(** X11: every record a task answers has the seven keys [Date],
    [From], [To], [Message], [Attachments], [MessageID] and
    [SourceFile], in this order and once each; [SourceFile] is the
    path handed to the task; [From], [To] and every name in
    [Attachments] hold no NUL whatever the message holds, and
    [Message] holds none when the two bodies are bytes, text or
    absent. *)
Theorem record_fields_are_clean :
  forall (filepath dir : pystr) (fl tl : Z) (st : bool)
         (files files' : filesystem) (r : record) (err : option pystr),
    process_msg_file filepath dir fl tl st files = (files', (Some r, err)) ->
    List.map fst r = [u "Date"; u "From"; u "To"; u "Message"; u "Attachments";
                      u "MessageID"; u "SourceFile"]
    /\ dict_get (u "SourceFile") (JStr []) r = JStr filepath
    /\ (exists msg_from msg_to names msg_body,
           dict_get (u "From") (JStr []) r = JStr msg_from
           /\ dict_get (u "To") (JStr []) r = JStr msg_to
           /\ dict_get (u "Attachments") (JStr []) r = JArr names
           /\ dict_get (u "Message") (JStr []) r = JStr msg_body
           /\ Forall (fun c => c <> NUL) msg_from
           /\ Forall (fun c => c <> NUL) msg_to
           /\ Forall (Forall (fun c => c <> NUL)) names
           /\ (forall msg, extract_msg_Message filepath = inr msg ->
                           (forall o, htmlBody msg <> PObj o) ->
                           (forall o, body msg <> PObj o) ->
                           Forall (fun c => c <> NUL) msg_body)).
Proof.
  intros filepath dir fl tl st files files' r err H.
  destruct (extract_msg_Message filepath) as [e|msg] eqn:Hd.
  { unfold process_msg_file in H. rewrite Hd in H. discriminate. }
  destruct (process_msg_file_record _ _ _ _ _ _ _ _ _ _ Hd H)
    as (names & Hs & _ & ->).
  split; [reflexivity|]. split; [reflexivity|].
  exists (summarize_addresses (sender msg) fl), (summarize_addresses (to msg) tl),
         names, (select_body msg st).
  repeat (split; [reflexivity|]).
  split; [apply summarize_addresses_no_nul|].
  split; [apply summarize_addresses_no_nul|].
  split; [eapply save_attachments_names_clean; [exact Hs|constructor]|].
  intros msg' [= <-]. apply select_body_nul_free.
Qed.

(** ** More on the reorder pass *)

Lemma str_ltb_total a b : str_ltb a b = false -> str_ltb b a = false -> a = b.
Proof.
  revert b. induction a as [|x a IH]; intros [|y b]; simpl; try easy.
  destruct (N.ltb_spec x y), (N.ltb_spec y x), (N.eqb_spec x y), (N.eqb_spec y x);
    try lia; try easy. intros H1 H2. subst. f_equal. now apply IH.
Qed.

(** Two sorted arrangements of the same elements are the same list
    when the order tells any two of the elements apart. *)
Lemma sorted_perm_unique {A} (R : A -> A -> Prop) (l1 l2 : list A) :
  StronglySorted R l1 -> StronglySorted R l2 -> Permutation l1 l2 ->
  (forall a b, In a l1 -> In b l1 -> R a b -> R b a -> a = b) ->
  l1 = l2.
Proof.
  intros H1. revert l2. induction H1 as [|x l1 Hs1 IH Hx]; intros l2 H2 Hp Hanti.
  - now apply Permutation_nil in Hp.
  - destruct H2 as [|y l2 Hs2 Hy].
    { apply Permutation_sym, Permutation_nil in Hp. discriminate. }
    assert (x = y) as <-.
    { assert (Hxin : In x (y :: l2)) by (eapply Permutation_in; [exact Hp|now left]).
      assert (Hyin : In y (x :: l1))
        by (eapply Permutation_in; [apply Permutation_sym, Hp|now left]).
      destruct Hxin as [->|Hxin]; [reflexivity|].
      destruct Hyin as [->|Hyin]; [reflexivity|].
      rewrite List.Forall_forall in Hx, Hy.
      apply Hanti; [now left|now right|now apply Hx|now apply Hy]. }
    f_equal. apply IH; [exact Hs2|now apply Permutation_cons_inv in Hp|].
    intros a b Ha Hb. apply Hanti; now right.
Qed.

Lemma StronglySorted_map {A B} (f : A -> B) (R : B -> B -> Prop) l :
  StronglySorted (fun a b => R (f a) (f b)) l -> StronglySorted R (List.map f l).
Proof.
  induction 1 as [|x l Hs IH Hx]; simpl; constructor; [exact IH|].
  rewrite List.Forall_forall in *. intros y Hy.
  apply in_map_iff in Hy as (a & <- & Ha). now apply Hx.
Qed.


Lemma sorted_by_date_keys (reverse : bool) l :
  StronglySorted (if reverse then str_ge else str_le)
                 (List.map date_text (sorted_by_date reverse l)).
Proof.
  pose proof (sorted_by_date_order reverse l) as H. unfold in_date_order in H.
  destruct reverse; now apply StronglySorted_map.
Qed.

(** The dates of the sorted file depend on the records only, not on
    the order they came in. *)
Lemma sorted_by_date_keys_perm (reverse : bool) l1 l2 :
  Permutation l1 l2 ->
  List.map date_text (sorted_by_date reverse l1)
  = List.map date_text (sorted_by_date reverse l2).
Proof.
  intros Hp.
  apply (sorted_perm_unique (if reverse then str_ge else str_le));
    try apply sorted_by_date_keys.
  - apply Permutation_map. rewrite <- !sorted_by_date_perm. exact Hp.
  - intros a b _ _ H1 H2. destruct reverse; unfold str_le, str_ge in *;
      now apply str_ltb_total.
Qed.

Lemma NoDup_map_inj {A B} (f : A -> B) l a b :
  List.NoDup (List.map f l) -> In a l -> In b l -> f a = f b -> a = b.
Proof.
  induction l as [|x l IH]; simpl; [easy|]. intros Hnd Ha Hb Hf.
  apply NoDup_cons_iff in Hnd as [Hx Hnd].
  destruct Ha as [->|Ha], Hb as [->|Hb]; try reflexivity.
  - exfalso. apply Hx. rewrite Hf. now apply List.in_map.
  - exfalso. apply Hx. rewrite <- Hf. now apply List.in_map.
  - now apply IH.
Qed.

Lemma date_order_antisym l a b :
  List.NoDup (List.map date_text l) -> In a l -> In b l ->
  date_ltb a b = false -> date_ltb b a = false -> a = b.
Proof.
  intros Hnd Ha Hb H1 H2. apply (NoDup_map_inj date_text l); try assumption.
  now apply str_ltb_total.
Qed.

(** With dates that are all different the sorted file itself depends
    on the records only. *)
Lemma sorted_by_date_perm_unique (reverse : bool) l1 l2 :
  Permutation l1 l2 -> List.NoDup (List.map date_text l1) ->
  sorted_by_date reverse l1 = sorted_by_date reverse l2.
Proof.
  intros Hp Hnd.
  assert (Hin : forall a, In a (sorted_by_date reverse l1) -> In a l1).
  { intros a. apply Permutation_in, Permutation_sym, sorted_by_date_perm. }
  pose proof (sorted_by_date_order reverse l1) as H1.
  pose proof (sorted_by_date_order reverse l2) as H2.
  unfold in_date_order in *. destruct reverse.
  - apply (sorted_perm_unique date_ge); try assumption.
    + rewrite <- !sorted_by_date_perm. exact Hp.
    + intros a b Ha Hb Hab Hba. apply (date_order_antisym l1); auto.
  - apply (sorted_perm_unique date_le); try assumption.
    + rewrite <- !sorted_by_date_perm. exact Hp.
    + intros a b Ha Hb Hab Hba. apply (date_order_antisym l1); auto.
Qed.

Lemma run_batch_task_records (dir : pystr) (fl tl : Z) (st : bool)
    (completed : list pystr) (files : filesystem) :
  let result := run_batch dir fl tl st completed files in
  run_out result = List.map json_dumps (task_records dir fl tl st completed)
  /\ Forall date_is_text (task_records dir fl tl st completed)
  /\ (length (task_records dir fl tl st completed) + length (run_errors result))%nat
     = length completed.
Proof.
  cbv zeta.
  destruct (run_batch_collects dir fl tl st completed (mkRun files [] []))
    as [Ho He].
  unfold run_batch. rewrite Ho, He. simpl. clear Ho He.
  unfold task_records, task_line, task_error, omap.
  induction completed as [|f fs (IH1 & IH2 & IH3)]; [repeat split; constructor|].
  simpl.
  destruct (task_outcome_cases dir fl tl st f) as [(r & E & _)|(e & E & _)];
    rewrite E; simpl.
  - split; [now rewrite IH1|]. split; [|now rewrite IH3].
    constructor; [|exact IH2]. eapply task_record_date_is_text, E.
  - split; [exact IH1|]. split; [exact IH2|]. rewrite <- IH3. lia.
Qed.

Lemma Forall_reads_back (l : list record) :
  (forall r, reads_back r) -> Forall reads_back l.
Proof. intros H. apply List.Forall_forall. intros r _. apply H. Qed.

(** X12: the two phases of [main] fit together.  After a confirmed
    run over a codec that reads back what it writes, the reorder pass
    never raises on the file the result loop wrote; the count
    reported as processed is the number of lines of the output file,
    and with the error messages it adds up to the number of files
    scanned; the file holds the records of the tasks that succeeded,
    in completion order for the mode [none] and otherwise sorted by
    date, descending exactly for [desc]. *)
Theorem main_sorts_what_the_batch_wrote :
  forall (a : args) (tree : list entry) (confirm : pystr) (files : filesystem),
    (forall r, reads_back r) ->
    (forall l, Permutation l (as_completed l)) ->
    str_lower confirm = u "y" ->
    let scanned := scan_directory (directory a) (recursive a) tree in
    let records := task_records (attachments_dir a) (from_limit a) (to_limit a)
                     (strip_tags a) (as_completed scanned) in
    exists result output_file,
      main a tree confirm files
      = Completed (attachments_dir a) result (Z.of_nat (length records))
                  output_file
      /\ run_out result = List.map json_dumps records
      /\ (length records + length (run_errors result))%nat = length scanned
      /\ length output_file = length records
      /\ (sort_date a = u "none" -> output_file = List.map json_dumps records)
      /\ (sort_date a <> u "none" ->
          exists sorted,
            output_file = List.map json_dumps sorted
            /\ Permutation records sorted
            /\ in_date_order (bool_decide (sort_date a = u "desc")) sorted).
Proof.
  intros a tree confirm files Hrt Hperm Hyes. cbv zeta.
  set (scanned := scan_directory (directory a) (recursive a) tree).
  set (records := task_records _ _ _ _ (as_completed scanned)).
  destruct (run_batch_task_records (attachments_dir a) (from_limit a) (to_limit a)
              (strip_tags a) (as_completed scanned) files) as (Ho & Ht & Hn).
  fold records in Ho, Ht, Hn.
  rewrite <- (Permutation_length (Hperm scanned)) in Hn.
  unfold main. fold scanned. rewrite Hyes.
  rewrite bool_decide_eq_true_2 by reflexivity. simpl negb. cbv iota.
  set (result := run_batch _ _ _ _ _ _) in *.
  replace (Z.of_nat (length scanned) - Z.of_nat (length (run_errors result)))%Z
    with (Z.of_nat (length records)) by lia.
  rewrite Ho.
  destruct (decide (sort_date a = u "none")) as [Hnone|Hmode].
  - unfold reorder_pass. rewrite Hnone. simpl.
    exists result, (List.map json_dumps records).
    split; [reflexivity|]. split; [exact Ho|]. split; [exact Hn|].
    split; [apply length_map|]. split; [reflexivity|]. intros H. now destruct H.
  - rewrite reorder_pass_runs by exact Hmode.
    rewrite rewrite_sorted_text by (try exact Ht; now apply Forall_reads_back).
    eexists result, _. split; [reflexivity|]. split; [exact Ho|].
    split; [exact Hn|].
    split; [rewrite length_map;
            apply Permutation_length, Permutation_sym, sorted_by_date_perm|].
    split; [intros H; now destruct Hmode|]. intros _.
    eexists. split; [reflexivity|].
    split; [apply sorted_by_date_perm|apply sorted_by_date_order].
Qed.

(** X13: the reorder pass undoes the accident of the completion
    order.  Two runs over the same files, completed in different
    orders, leave sorted files with the same sequence of dates; and
    when no two records have the same date the two files are the
    same, line for line. *)
Theorem sorted_output_ignores_completion_order :
  forall (dir : pystr) (fl tl : Z) (st : bool) (completed1 completed2 : list pystr)
         (files1 files2 : filesystem) (mode : pystr),
    (forall r, reads_back r) ->
    Permutation completed1 completed2 ->
    mode <> u "none" ->
    exists sorted1 sorted2,
      reorder_pass mode (run_out (run_batch dir fl tl st completed1 files1))
      = Some (List.map json_dumps sorted1)
      /\ reorder_pass mode (run_out (run_batch dir fl tl st completed2 files2))
         = Some (List.map json_dumps sorted2)
      /\ List.map date_text sorted1 = List.map date_text sorted2
      /\ (List.NoDup (List.map date_text (task_records dir fl tl st completed1)) ->
          sorted1 = sorted2).
Proof.
  intros dir fl tl st completed1 completed2 files1 files2 mode Hrt Hp Hmode.
  destruct (run_batch_task_records dir fl tl st completed1 files1) as (Ho1 & Ht1 & _).
  destruct (run_batch_task_records dir fl tl st completed2 files2) as (Ho2 & Ht2 & _).
  assert (Hrec : Permutation (task_records dir fl tl st completed1)
                             (task_records dir fl tl st completed2)).
  { unfold task_records. now apply omap_Permutation. }
  rewrite !reorder_pass_runs by exact Hmode. rewrite Ho1, Ho2.
  rewrite !rewrite_sorted_text by (try assumption; now apply Forall_reads_back).
  eexists _, _. split; [reflexivity|]. split; [reflexivity|].
  split; [now apply sorted_by_date_keys_perm|].
  intros Hnd. now apply sorted_by_date_perm_unique.
Qed.



(** ** The scanner *)

Lemma flat_map_flat_map {A B C} (f : A -> list B) (g : B -> list C) l :
  flat_map g (flat_map f l) = flat_map (fun x => flat_map g (f x)) l.
Proof.
  induction l as [|x l IH]; [reflexivity|]. simpl.
  now rewrite List.flat_map_app, IH.
Qed.

Lemma file_names_flat (tree : list entry) :
  forallb is_file tree = true -> file_names tree = List.map entry_name tree.
Proof.
  unfold file_names. induction tree as [|[name|name ch] tree IH]; simpl;
    [reflexivity| |discriminate].
  intros H. now rewrite IH.
Qed.

(** X15: a recursive scan lists the matching files of the directory
    itself, in listing order, and then what it finds in each
    subdirectory, one subdirectory after the other; a plain scan
    lists the matching entries of the directory, directories
    included.  So in a directory without subdirectories the two
    scans agree, while a subdirectory whose own name ends in [.msg]
    is listed by the plain scan and never by the recursive one. *)
Theorem scan_directory_by_mode :
  forall (directory : pystr) (tree : list entry),
    scan_directory directory true tree
    = List.map (path_join directory) (List.filter is_msg (file_names tree))
      ++ flat_map (scan_below directory) tree
    /\ scan_directory directory false tree
       = List.map (path_join directory)
                  (List.filter is_msg (List.map entry_name tree))
    /\ (forallb is_file tree = true ->
        scan_directory directory true tree = scan_directory directory false tree)
    /\ (forall name children,
           In (Dir name children) tree -> is_msg name = true ->
           In (path_join directory name) (scan_directory directory false tree))
    /\ (forall name children,
           tree = [Dir name children] ->
           scan_directory directory true tree
           = scan_directory (os_path_join directory name) true children).
Proof.
  intros directory tree.
  assert (Hrec : scan_directory directory true tree
                 = List.map (path_join directory)
                            (List.filter is_msg (file_names tree))
                   ++ flat_map (scan_below directory) tree).
  { unfold scan_directory, os_walk. simpl. f_equal.
    rewrite flat_map_flat_map. apply List.flat_map_ext.
    intros [name|name ch]; reflexivity. }
  split; [exact Hrec|]. split; [reflexivity|]. split; [|split].
  - intros Hflat. rewrite Hrec. rewrite file_names_flat by exact Hflat.
    replace (flat_map (scan_below directory) tree) with (@nil pystr).
    + now rewrite app_nil_r.
    + clear Hrec. induction tree as [|[name|name ch] tree IH]; simpl in *;
        [reflexivity| |discriminate]. now apply IH.
  - intros name children Hin Hmsg. unfold scan_directory.
    apply List.in_map, filter_In. split; [|exact Hmsg].
    apply in_map_iff. now exists (Dir name children).
  - intros name children ->. rewrite Hrec. simpl. now rewrite app_nil_r.
Qed.

Lemma endswith_app s suffix :
  endswith s suffix = true <-> exists base, s = base ++ suffix.
Proof.
  unfold endswith. rewrite bool_decide_eq_true. split.
  - remember (length s - length suffix)%nat as n eqn:Hn. clear Hn.
    intros <-. exists (firstn n s). symmetry. apply firstn_skipn.
  - intros [base ->]. rewrite length_app.
    replace (length base + length suffix - length suffix)%nat
      with (length base) by lia.
    rewrite skipn_app, skipn_all, Nat.sub_diag. reflexivity.
Qed.

Lemma ascii_lower_letter c l :
  ascii_lower c = l -> (97 <= l <= 122) -> c = l \/ c = l - 32.
Proof.
  unfold ascii_lower. intros H Hl.
  destruct (N.leb_spec 65 c), (N.leb_spec c 90); simpl in H; lia.
Qed.

(** X16: on an ASCII name, where [str.lower] only touches the letters
    A to Z, the scanner's test holds exactly for the names that end
    in a dot followed by [m], [s], [g] in either case; the name
    [.msg] alone passes, a name of fewer than four characters does
    not. *)
Theorem is_msg_on_ascii_names :
  forall (f : pystr),
    (forall s, is_ascii s -> str_lower s = List.map ascii_lower s) ->
    is_ascii f ->
    (is_msg f = true <->
     exists base m s g, f = base ++ [46; m; s; g]
                        /\ (m = 109 \/ m = 77) /\ (s = 115 \/ s = 83)
                        /\ (g = 103 \/ g = 71))
    /\ ((length f < 4)%nat -> is_msg f = false).
Proof.
  intros f Hlower Hf. unfold is_msg. rewrite (Hlower f Hf).
  assert (Hiff : endswith (List.map ascii_lower f) (u ".msg") = true <->
                 exists base m s g, f = base ++ [46; m; s; g]
                        /\ (m = 109 \/ m = 77) /\ (s = 115 \/ s = 83)
                        /\ (g = 103 \/ g = 71)).
  { rewrite endswith_app. split.
    - intros [lbase H].
      apply map_eq_app in H as (base & suf & -> & _ & Hsuf).
      destruct suf as [|d [|m [|s0 [|g [|? ?]]]]]; try discriminate.
      injection Hsuf as Hd Hm Hs Hg.
      exists base, m, s0, g. split; [|split; [|split]].
      + f_equal. f_equal. unfold ascii_lower in Hd.
        destruct (N.leb_spec 65 d), (N.leb_spec d 90); simpl in Hd; lia.
      + apply ascii_lower_letter in Hm; lia.
      + apply ascii_lower_letter in Hs; lia.
      + apply ascii_lower_letter in Hg; lia.
    - intros (base & m & s0 & g & -> & Hm & Hs & Hg).
      exists (List.map ascii_lower base). rewrite List.map_app. f_equal.
      destruct Hm as [-> | ->], Hs as [-> | ->], Hg as [-> | ->]; reflexivity. }
  split; [exact Hiff|].
  intros Hlen. apply not_true_is_false. intros E.
  apply Hiff in E as (base & m & s0 & g & -> & _).
  rewrite length_app in Hlen. simpl in Hlen. lia.
Qed.

(** X17: the prompt lets a run go on for the answers [y] and [Y] and
    for no other ASCII answer: the empty answer, [yes] and an answer
    with a blank around the letter all end the run with status 1,
    after the attachments directory was made and the input directory
    scanned, and before any task runs or the output file is opened. *)
Theorem main_confirmation_gate :
  forall (a : args) (tree : list entry) (confirm : pystr) (files : filesystem),
    (forall s, is_ascii s -> str_lower s = List.map ascii_lower s) ->
    is_ascii confirm ->
    (main a tree confirm files = Declined (attachments_dir a)
     <-> confirm <> u "y" /\ confirm <> u "Y")
    /\ (confirm = u "" \/ confirm = u "yes" \/ confirm = u " y" \/ confirm = u "y "
        \/ confirm = u "n" ->
        main a tree confirm files = Declined (attachments_dir a)).
Proof.
  intros a tree confirm files Hlower Hc.
  assert (Hy : str_lower confirm = u "y" <-> confirm = u "y" \/ confirm = u "Y").
  { rewrite (Hlower confirm Hc). split.
    - destruct confirm as [|c [|? ?]]; try discriminate. intros [= H].
      apply ascii_lower_letter in H; [|vm_compute; split; discriminate].
      destruct H as [-> | ->]; [now left|now right].
    - intros [-> | ->]; reflexivity. }
  assert (Hiff : main a tree confirm files = Declined (attachments_dir a)
                 <-> confirm <> u "y" /\ confirm <> u "Y").
  { unfold main. destruct (bool_decide_reflect (str_lower confirm = u "y")) as [E|E];
      simpl negb; cbv iota.
    - split.
      + destruct (reorder_pass _ _); discriminate.
      + intros [H1 H2]. apply Hy in E as [E|E]; contradiction.
    - split; [|reflexivity]. intros _.
      split; intros H; apply E, Hy; [now left|now right]. }
  split; [exact Hiff|].
  intros H. apply Hiff.
  destruct H as [-> | [-> | [-> | [-> | ->]]]]; split; discriminate.
Qed.

(** ** Files the reorder pass cannot sort *)

Lemma mapM_loads_bad (out : list pystr) (line : pystr) :
  In line out -> json_loads line = None -> mapM json_loads out = None.
Proof.
  induction out as [|x out IH]; [easy|]. intros [->|Hin] Hbad; simpl.
  - now rewrite Hbad.
  - destruct (json_loads x); [|reflexivity]. simpl. now rewrite IH.
Qed.

Lemma insert_by_date_perm x l s :
  insert_by_date x l = Some s -> Permutation (x :: l) s.
Proof.
  revert s. induction l as [|y l IH]; intros s; simpl.
  - now intros [= <-].
  - destruct (value_lt (date_key y) (date_key x)) as [[|]|]; try discriminate.
    + destruct (insert_by_date x l) as [s'|]; [|discriminate]. intros [= <-].
      rewrite perm_swap. constructor. now apply IH.
    + now intros [= <-].
Qed.

Lemma sort_by_date_perm l s : sort_by_date l = Some s -> Permutation l s.
Proof.
  revert s. induction l as [|x l IH]; intros s; simpl.
  - now intros [= <-].
  - destruct (sort_by_date l) as [s'|]; [|discriminate]. simpl. intros H.
    apply insert_by_date_perm in H. rewrite <- H. constructor. now apply IH.
Qed.

(** A sort that does not raise has compared neighbours of one kind. *)
Lemma insert_by_date_kinds x l s :
  insert_by_date x l = Some s -> l <> [] ->
  (date_is_text x /\ exists y, In y l /\ date_is_text y)
  \/ (date_is_array x /\ exists y, In y l /\ date_is_array y).
Proof.
  destruct l as [|y l]; [congruence|]. simpl. intros H _.
  unfold date_is_text, date_is_array.
  destruct (date_key y) as [ky|ky] eqn:Ey, (date_key x) as [kx|kx] eqn:Ex;
    simpl in H; try discriminate.
  - left. split; [eauto|]. exists y. split; [now left|eauto].
  - right. split; [eauto|]. exists y. split; [now left|eauto].
Qed.

Lemma sort_by_date_one_kind l s :
  sort_by_date l = Some s ->
  Forall date_is_text l \/ Forall date_is_array l.
Proof.
  revert s. induction l as [|x l IH]; intros s; [now left|]. simpl.
  destruct (sort_by_date l) as [s'|] eqn:E; [|discriminate]. simpl. intros H.
  destruct l as [|y l].
  { unfold date_is_text, date_is_array.
    destruct (date_key x) eqn:Ex; [left|right]; repeat constructor; eauto. }
  assert (Hne : s' <> []).
  { intros ->. apply sort_by_date_perm, Permutation_sym, Permutation_nil in E.
    discriminate. }
  apply sort_by_date_perm in E as Hp.
  destruct (insert_by_date_kinds _ _ _ H Hne) as [[Hx (z & Hz & Hk)]|[Hx (z & Hz & Hk)]];
    destruct (IH s' eq_refl) as [Hall|Hall].
  - left. now constructor.
  - exfalso. apply (Permutation_in _ (Permutation_sym Hp)) in Hz.
    rewrite List.Forall_forall in Hall. destruct (Hall z Hz) as [l' Hl'].
    destruct Hk as [k Hk]. congruence.
  - exfalso. apply (Permutation_in _ (Permutation_sym Hp)) in Hz.
    rewrite List.Forall_forall in Hall. destruct (Hall z Hz) as [l' Hl'].
    destruct Hk as [k Hk]. congruence.
  - right. now constructor.
Qed.

(** X18: the reorder pass raises, and so rewrites nothing, on a file
    it cannot read or compare: when one line is not accepted by
    [json.loads] (a blank line, say), and when the [Date] of one
    record is text and the [Date] of another is an array.  A sort
    that succeeds has therefore seen dates of one kind only. *)
Theorem reorder_pass_raises_on_bad_file :
  forall (mode : pystr) (out : list pystr),
    mode <> u "none" ->
    (forall line, In line out -> json_loads line = None ->
                  reorder_pass mode out = None)
    /\ (forall records a b,
           mapM json_loads out = Some records ->
           In a records -> In b records ->
           date_is_text a -> date_is_array b ->
           reorder_pass mode out = None)
    /\ (forall records (reverse : bool) sorted,
           list_sort reverse records = Some sorted ->
           Permutation records sorted
           /\ (Forall date_is_text records \/ Forall date_is_array records)).
Proof.
  intros mode out Hmode.
  assert (Hsort : forall records (reverse : bool) sorted,
             list_sort reverse records = Some sorted ->
             Permutation records sorted
             /\ (Forall date_is_text records \/ Forall date_is_array records)).
  { intros records reverse sorted. unfold list_sort. destruct reverse.
    - destruct (sort_by_date (rev records)) as [s|] eqn:E; [|discriminate].
      simpl. intros [= <-]. split.
      + rewrite <- Permutation_rev. apply sort_by_date_perm in E.
        rewrite <- E. apply Permutation_rev.
      + apply sort_by_date_one_kind in E.
        destruct E as [E|E]; [left|right];
          (eapply Permutation_Forall; [apply Permutation_sym, Permutation_rev|exact E]).
    - intros E. split; [now apply sort_by_date_perm|].
      now apply sort_by_date_one_kind in E. }
  split; [|split; [|exact Hsort]].
  - intros line Hin Hbad. rewrite reorder_pass_runs by exact Hmode.
    unfold rewrite_sorted. now rewrite (mapM_loads_bad out line).
  - intros records a b Hload Ha Hb [ka Hka] [kb Hkb].
    rewrite reorder_pass_runs by exact Hmode.
    unfold rewrite_sorted. rewrite Hload. simpl.
    destruct (list_sort _ records) as [sorted|] eqn:E; [|reflexivity].
    exfalso. apply Hsort in E as [_ [Hall|Hall]];
      rewrite List.Forall_forall in Hall.
    + destruct (Hall b Hb) as [k Hk]. congruence.
    + destruct (Hall a Ha) as [k Hk]. congruence.
Qed.

(** ** What a task answers, in full *)

Lemma save_attachments_names (filepath dir : pystr) (atts : list attachment)
    (acc : list pystr) (files files' : filesystem) (names : list pystr) :
  save_attachments filepath dir atts acc files = (files', inr names) ->
  names = acc ++ List.map (fun att => remove_char NUL (saved_name filepath att))
                          (List.filter retained atts).
Proof.
  revert acc files. induction atts as [|att atts IH]; intros acc files H.
  - simpl in *. injection H as _ <-. now rewrite app_nil_r.
  - simpl in H. rewrite attachment_name_retained in H. simpl List.filter.
    destruct (retained att); [|eauto].
    destruct (open_wb_error _); [discriminate|].
    apply IH in H. rewrite H. simpl. now rewrite <- app_assoc.
Qed.

Lemma save_attachments_raises (filepath dir : pystr) (atts : list attachment)
    (acc : list pystr) (files files' : filesystem) (e : exn) :
  save_attachments filepath dir atts acc files = (files', inl e) ->
  exists att, In att atts /\ retained att = true
              /\ open_wb_error (path_join dir (saved_name filepath att)) = Some e.
Proof.
  revert acc files. induction atts as [|att atts IH]; intros acc files H.
  - discriminate.
  - simpl in H. rewrite attachment_name_retained in H.
    destruct (retained att) eqn:Hr.
    + destruct (open_wb_error _) as [e'|] eqn:Ho.
      * injection H as _ <-. exists att. split; [now left|]. now split.
      * apply IH in H as (a & Ha & Hra & Hoa). exists a. split; [now right|].
        now split.
    + apply IH in H as (a & Ha & Hra & Hoa). exists a. split; [now right|].
      now split.
Qed.

(** The answer of a task: the record built from the decoded message,
    or the message that names the path and the exception, which is
    the decoder's or that of the first attachment file that cannot be
    opened. *)
Lemma task_outcome_detail (dir : pystr) (fl tl : Z) (st : bool) (f : pystr) :
  (exists msg r,
      extract_msg_Message f = inr msg
      /\ r = [ (u "Date", JStr (select_date msg));
               (u "From", JStr (summarize_addresses (sender msg) fl));
               (u "To", JStr (summarize_addresses (to msg) tl));
               (u "Message", JStr (select_body msg st));
               (u "Attachments",
                JArr (List.map (fun att => remove_char NUL (saved_name f att))
                               (List.filter retained (attachments msg))));
               (u "MessageID", JStr (message_id msg));
               (u "SourceFile", JStr f) ]
      /\ task_outcome dir fl tl st f = (Some r, None))
  \/ (exists e,
         task_outcome dir fl tl st f
         = (None, Some (u "Error parsing " ++ f ++ u ": " ++ e))
         /\ (extract_msg_Message f = inl e
             \/ exists msg att,
                  extract_msg_Message f = inr msg
                  /\ In att (attachments msg) /\ retained att = true
                  /\ open_wb_error (path_join dir (saved_name f att)) = Some e)).
Proof.
  unfold task_outcome, process_msg_file.
  destruct (extract_msg_Message f) as [e|msg].
  - right. exists e. split; [reflexivity|now left].
  - destruct (save_attachments f dir (attachments msg) [] ∅)
      as [files' [e|names]] eqn:Hs.
    + right. exists e. split; [reflexivity|]. right.
      apply save_attachments_raises in Hs as (att & Hin & Hr & Ho).
      now exists msg, att.
    + left. apply save_attachments_names in Hs. simpl in Hs. subst names.
      eexists msg, _. split; [reflexivity|]. split; reflexivity.
Qed.

End Outparser.

(** ** Isolation of a failing task *)

Lemma task_outcome_same_decoder decode decode' stem path_join open_wb_error
    attachments_dir from_limit to_limit strip_tags f :
  decode' f = decode f ->
  task_outcome decode' stem path_join open_wb_error attachments_dir
    from_limit to_limit strip_tags f
  = task_outcome decode stem path_join open_wb_error attachments_dir
      from_limit to_limit strip_tags f.
Proof. intros H. unfold task_outcome, process_msg_file. now rewrite H. Qed.

Lemma omap_ext_in {A B} (g h : A -> option B) (l : list A) :
  (forall x, In x l -> g x = h x) -> omap g l = omap h l.
Proof.
  unfold omap. induction l as [|x l IH]; intros H; [reflexivity|]. simpl.
  rewrite (H x) by now left. rewrite IH; [reflexivity|].
  intros y Hy. apply H. now right.
Qed.

(** C1: a task answers exactly one of a record and an error message,
    never both and never neither.  The record is the one built from
    the decoded message; the message is [Error parsing], the source
    path, a colon and the text of the exception, which is the
    decoder's or that of the first attachment file that cannot be
    opened: either exception ends the task with that message and
    goes no further.  The loop writes the records, and only the
    records, to the output file, one line per record in completion
    order, and collects the messages; so when one file is made to
    fail, the output holds the lines of all the other tasks,
    unchanged, and only the line of the failing task is missing. *)
Theorem failing_task_is_isolated :
  forall (decode : pystr -> exn + Message) (stem : pystr -> pystr)
         (path_join : pystr -> pystr -> pystr)
         (open_wb_error : pystr -> option exn) (json_dumps : record -> pystr)
         (attachments_dir : pystr) (from_limit to_limit : Z) (strip_tags : bool),
    let process := process_msg_file decode stem path_join open_wb_error in
    let outcome := task_outcome decode stem path_join open_wb_error
                     attachments_dir from_limit to_limit strip_tags in
    let line := task_line decode stem path_join open_wb_error json_dumps
                  attachments_dir from_limit to_limit strip_tags in
    let error := task_error decode stem path_join open_wb_error
                   attachments_dir from_limit to_limit strip_tags in
    (forall f files,
        snd (process f attachments_dir from_limit to_limit strip_tags files)
        = outcome f
        /\ ((exists msg r,
                decode f = inr msg
                /\ r = [ (u "Date", JStr (select_date msg));
                         (u "From",
                          JStr (summarize_addresses (sender msg) from_limit));
                         (u "To", JStr (summarize_addresses (to msg) to_limit));
                         (u "Message", JStr (select_body msg strip_tags));
                         (u "Attachments",
                          JArr (List.map
                                  (fun att => remove_char NUL
                                                (saved_name stem f att))
                                  (List.filter retained (attachments msg))));
                         (u "MessageID", JStr (message_id msg));
                         (u "SourceFile", JStr f) ]
                /\ outcome f = (Some r, None)
                /\ truthy_dict r = true
                /\ dict_get (u "SourceFile") (JStr []) r = JStr f)
            \/ (exists e,
                   outcome f
                   = (None, Some (u "Error parsing " ++ f ++ u ": " ++ e))
                   /\ truthy (u "Error parsing " ++ f ++ u ": " ++ e) = true
                   /\ (decode f = inl e
                       \/ exists msg att,
                            decode f = inr msg
                            /\ In att (attachments msg) /\ retained att = true
                            /\ open_wb_error
                                 (path_join attachments_dir (saved_name stem f att))
                               = Some e))))
    /\ (forall f e files,
           decode f = inl e ->
           process f attachments_dir from_limit to_limit strip_tags files
           = (files, (None, Some (u "Error parsing " ++ f ++ u ": " ++ e))))
    /\ (forall f msg e files files',
           decode f = inr msg ->
           save_attachments stem path_join open_wb_error f attachments_dir
             (attachments msg) [] files = (files', inl e) ->
           process f attachments_dir from_limit to_limit strip_tags files
           = (files', (None, Some (u "Error parsing " ++ f ++ u ": " ++ e))))
    /\ (forall completed files,
           let result := run_batch decode stem path_join open_wb_error json_dumps
                           attachments_dir from_limit to_limit strip_tags
                           completed files in
           run_out result = omap line completed
           /\ run_errors result = omap error completed
           /\ (length (run_out result) + length (run_errors result))%nat
              = length completed)
    /\ (forall decode' k e completed files,
           decode' k = inl e ->
           (forall f, f <> k -> decode' f = decode f) ->
           let result := run_batch decode' stem path_join open_wb_error json_dumps
                           attachments_dir from_limit to_limit strip_tags
                           completed files in
           run_out result
           = omap (fun f => if bool_decide (f = k) then None else line f) completed
           /\ (In k completed ->
               In (u "Error parsing " ++ k ++ u ": " ++ e) (run_errors result))).
Proof.
  intros decode stem path_join open_wb_error json_dumps attachments_dir
         from_limit to_limit strip_tags. cbv zeta.
  split; [|split; [|split; [|split]]].
  - intros f files. split; [apply process_msg_file_outcome|].
    destruct (task_outcome_detail decode stem path_join open_wb_error
                attachments_dir from_limit to_limit strip_tags f)
      as [(msg & r & Hd & Hr & Ho)|(e & Ho & He)].
    + left. exists msg, r. split; [exact Hd|]. split; [exact Hr|].
      split; [exact Ho|]. now subst r.
    + right. exists e. split; [exact Ho|]. split; [reflexivity|exact He].
  - intros f e files H. unfold process_msg_file. now rewrite H.
  - intros f msg e files files' Hd Hs.
    rewrite (process_msg_file_decoded _ _ _ _ _ _ _ _ _ _ _ Hd). now rewrite Hs.
  - intros completed files.
    destruct (run_batch_collects decode stem path_join open_wb_error json_dumps
                attachments_dir from_limit to_limit strip_tags completed
                (mkRun files [] [])) as [Ho He].
    unfold run_batch. rewrite Ho, He. simpl. split; [reflexivity|].
    split; [reflexivity|]. apply omap_lengths. intros f.
    unfold task_line, task_error.
    destruct (task_outcome_cases decode stem path_join open_wb_error
                attachments_dir from_limit to_limit strip_tags f)
      as [(r & -> & _)|(e & -> & _)]; simpl; eauto.
  - intros decode' k e completed files Hk Hsame.
    destruct (run_batch_collects decode' stem path_join open_wb_error json_dumps
                attachments_dir from_limit to_limit strip_tags completed
                (mkRun files [] [])) as [Ho He].
    unfold run_batch. rewrite Ho, He. simpl. split.
    + apply omap_ext_in. intros f _. unfold task_line.
      destruct (bool_decide_reflect (f = k)) as [->|Hne].
      * unfold task_outcome, process_msg_file. now rewrite Hk.
      * now rewrite (task_outcome_same_decoder decode decode') by auto.
    + intros Hin. apply list_elem_of_In, list_elem_of_omap. exists k.
      split; [now apply list_elem_of_In|].
      unfold task_error, task_outcome, process_msg_file. now rewrite Hk.
Qed.

(** ** The definitions at work *)

Example posix_stem_examples :
  posix_stem (u "mail/one.msg") = u "one"
  /\ posix_stem (u "mail/.msg") = u ".msg"
  /\ posix_stem (u "a.tar.gz") = u "a.tar"
  /\ posix_stem (u "dir.d/a.") = u "a.".
Proof. vm_compute. repeat split. Qed.

Lemma has_tag_gt s : has_tag s -> In GT s.
Proof.
  intros (pre & t & post & -> & mid & -> & _).
  apply in_or_app. right. apply in_or_app. left.
  right. apply in_or_app. right. now left.
Qed.

Lemma failing_task_is_isolated_witness :
  failing_decoder (u "mail/two.msg") = inl (u "truncated")
  /\ (forall f, f <> u "mail/two.msg" -> failing_decoder f = sample_decoder f)
  /\ run_out (run_batch failing_decoder posix_stem posix_join always_writable
                date_line_dumps (u "Attachments") 3 3 false sample_batch ∅)
     = omap (fun f => if bool_decide (f = u "mail/two.msg") then None
                      else task_line sample_decoder posix_stem posix_join
                             always_writable date_line_dumps (u "Attachments")
                             3 3 false f)
            sample_batch.
Proof.
  assert (H1 : failing_decoder (u "mail/two.msg") = inl (u "truncated"))
    by reflexivity.
  assert (H2 : forall f, f <> u "mail/two.msg" ->
                         failing_decoder f = sample_decoder f).
  { intros f Hf. unfold failing_decoder.
    destruct (bool_decide_reflect (f = u "mail/two.msg")); [contradiction|reflexivity]. }
  split; [exact H1|]. split; [exact H2|].
  exact (proj1 (proj2 (proj2 (proj2 (proj2
           (failing_task_is_isolated sample_decoder posix_stem posix_join
              always_writable date_line_dumps (u "Attachments") 3 3 false))))
           failing_decoder (u "mail/two.msg") (u "truncated") sample_batch ∅
           H1 H2)).
Defined.

Lemma summarize_addresses_by_limit_witness :
  (0 <= 2)%Z
  /\ summarize_addresses (Some (u "a@x; b@y ;c@z;d@w")) 2
     = u "a@x, b@y, and 2 others".
Proof.
  assert (H0 : (0 <= 2)%Z) by lia. split; [exact H0|].
  destruct (summarize_addresses_by_limit (Some (u "a@x; b@y ;c@z;d@w")) 2 H0)
    as [_ Hs].
  destruct (Hs (u "a@x; b@y ;c@z;d@w") eq_refl ltac:(discriminate))
    as (_ & _ & _ & _ & Hmore).
  destruct Hmore as [_ ->]; [lia|vm_compute; reflexivity|]. vm_compute. reflexivity.
Defined.

Lemma reorder_pass_sorts_stably_and_is_idempotent_witness :
  Forall (reads_back date_line_dumps date_line_loads) sample_records
  /\ Forall date_is_text sample_records
  /\ u "desc" <> u "none"
  /\ exists sorted,
       reorder_pass date_line_dumps date_line_loads (u "desc")
         (List.map date_line_dumps sample_records)
       = Some (List.map date_line_dumps sorted)
       /\ Permutation sample_records sorted
       /\ in_date_order true sorted.
Proof.
  assert (H1 : Forall (reads_back date_line_dumps date_line_loads) sample_records)
    by (repeat constructor).
  assert (H2 : Forall date_is_text sample_records)
    by (repeat constructor; eexists; reflexivity).
  assert (H3 : u "desc" <> u "none") by discriminate.
  split; [exact H1|]. split; [exact H2|]. split; [exact H3|].
  destruct (reorder_pass_sorts_stably_and_is_idempotent date_line_dumps
              date_line_loads (u "desc") sample_records H1 H2 H3)
    as (sorted & Hp & Hperm & Hord & _).
  exists sorted. split; [exact Hp|]. split; [exact Hperm|exact Hord].
Defined.

Lemma safe_filename_sanitizes_witness :
  forallb is_control [0; 7; 127] = true
  /\ safe_filename [0; 7; 127] = unnamed_attachment.
Proof.
  assert (H : forallb is_control [0; 7; 127] = true) by reflexivity.
  split; [exact H|].
  exact (proj1 (proj2 (proj2 (proj2 (proj2 safe_filename_sanitizes))))
           [0; 7; 127] H).
Defined.

Lemma attachments_saved_in_order_witness :
  Forall (fun name => always_writable (posix_join (u "Attachments") name) = None)
         (List.map (saved_name posix_stem (u "mail/one.msg"))
                   (List.filter retained (attachments sample_message)))
  /\ exists files',
       save_attachments posix_stem posix_join always_writable (u "mail/one.msg")
         (u "Attachments") (attachments sample_message) [] ∅
       = (files', inr [u "one_re_port.pdf"; u "one_B.TXT"; u "one_re_port.pdf"])
       /\ files' !! u "Attachments/one_re_port.pdf" = Some [3]
       /\ files' !! u "Attachments/one_B.TXT" = Some [2].
Proof.
  assert (H : Forall (fun name => always_writable
                                    (posix_join (u "Attachments") name) = None)
                (List.map (saved_name posix_stem (u "mail/one.msg"))
                   (List.filter retained (attachments sample_message))))
    by (repeat constructor).
  split; [exact H|].
  destruct (proj2 (proj2 (attachments_saved_in_order posix_stem posix_join
                            always_writable (u "mail/one.msg") (u "Attachments")
                            (attachments sample_message) ∅)) H)
    as (files' & Hs & _ & Hl & _).
  exists files'. split; [exact Hs|]. split; rewrite Hl; reflexivity.
Defined.

Lemma body_prefers_html_and_strips_selected_witness :
  sample_decoder (u "mail/one.msg") = inr sample_message
  /\ select_body sample_message true = u "Hi".
Proof.
  assert (H : sample_decoder (u "mail/one.msg") = inr sample_message)
    by reflexivity.
  split; [exact H|].
  rewrite (proj1 (proj2 (body_prefers_html_and_strips_selected sample_decoder
                           posix_stem posix_join always_writable
                           (u "mail/one.msg") (u "Attachments") 3 3 true ∅
                           sample_message H))).
  vm_compute. reflexivity.
Defined.

Lemma strip_html_tags_removes_tags_witness :
  ~ has_tag (u "1 < 2") /\ strip_html_tags (Some (u "1 < 2")) = Some (u "1 < 2").
Proof.
  assert (H : ~ has_tag (u "1 < 2")).
  { intros Ht. apply has_tag_gt in Ht. vm_compute in Ht.
    repeat (destruct Ht as [Ht|Ht]; [discriminate|]). exact Ht. }
  split; [exact H|].
  exact (proj1 (proj2 (proj2 (proj2 strip_html_tags_removes_tags))) (u "1 < 2") H).
Defined.

Lemma sort_mode_is_not_validated_witness :
  u "Asc" <> u "none" /\ u "Asc" <> u "desc"
  /\ reorder_pass date_line_dumps date_line_loads (u "Asc")
       (List.map date_line_dumps sample_records)
     = rewrite_sorted date_line_dumps date_line_loads false
         (List.map date_line_dumps sample_records).
Proof.
  assert (H1 : u "Asc" <> u "none") by discriminate.
  assert (H2 : u "Asc" <> u "desc") by discriminate.
  split; [exact H1|]. split; [exact H2|].
  exact (proj1 (proj1 (proj2 (proj2
           (sort_mode_is_not_validated date_line_dumps date_line_loads (u "Asc")
              (List.map date_line_dumps sample_records)))) H1 H2)).
Defined.

Lemma message_id_unknown_only_without_attribute_witness :
  sample_decoder (u "mail/one.msg") = inr sample_message
  /\ messageId sample_message = Some PNone
  /\ message_id sample_message = [] /\ message_id sample_message <> u "UNKNOWN".
Proof.
  assert (H : sample_decoder (u "mail/one.msg") = inr sample_message)
    by reflexivity.
  assert (Hn : messageId sample_message = Some PNone) by reflexivity.
  split; [exact H|]. split; [exact Hn|].
  exact (proj1 (proj2 (proj2 (message_id_unknown_only_without_attribute
                                sample_decoder posix_stem posix_join
                                always_writable (u "mail/one.msg")
                                (u "Attachments") 3 3 true ∅ sample_message H)))
           Hn).
Defined.

(** C10 (as stated) fails on a message whose identifier is the text
    [UNKNOWN]: the attribute is there, and the field of the record is
    [UNKNOWN] all the same. *)
Lemma message_id_unknown_with_attribute :
  messageId unknown_id_message = Some (PStr (u "UNKNOWN"))
  /\ messageId unknown_id_message <> None
  /\ message_id unknown_id_message = u "UNKNOWN"
  /\ exists r,
       snd (process_msg_file (fun _ => inr unknown_id_message) posix_stem
              posix_join always_writable (u "mail/one.msg") (u "Attachments")
              3 3 false ∅)
       = (Some r, None)
       /\ dict_get (u "MessageID") (JStr []) r = JStr (u "UNKNOWN").
Proof.
  split; [reflexivity|]. split; [discriminate|]. split; [reflexivity|].
  eexists. split; reflexivity.
Qed.

(** C7 (as stated) fails.  With the strip-tags flag set, a message
    without an HTML body gets its plain-text body stripped of markup,
    where the claim promises the plain-text body; and a message whose
    HTML body is there but empty once cleaned gets the plain-text
    body, where the claim promises the HTML body. *)
Lemma body_differs_from_specified_body :
  htmlBody tagged_plain_message = PNone
  /\ select_body tagged_plain_message true = u "1  4"
  /\ spec_body tagged_plain_message true = u "1 <2 and 3> 4"
  /\ select_body tagged_plain_message true <> spec_body tagged_plain_message true
  /\ htmlBody blank_html_message = PBytes [NUL]
  /\ select_body blank_html_message false = u "text"
  /\ spec_body blank_html_message false = []
  /\ select_body blank_html_message false <> spec_body blank_html_message false.
Proof. vm_compute. repeat split; discriminate. Qed.

Example sample_run :
  let result := run_batch sample_decoder posix_stem posix_join locked_file
                  date_line_dumps (u "Attachments") 3 3 true sample_batch ∅ in
  run_out result = [u "2024-01-02T03:04:05"; u "2024-01-02T03:04:05"]
  /\ run_errors result
     = [u "Error parsing mail/two.msg: [Errno 13] Permission denied";
        u "Error parsing mail/bad.msg: not an OLE2 file"]
  /\ run_files result !! u "Attachments/two_re_port.pdf" = Some [37; 80]
  /\ run_files result !! u "Attachments/two_B.TXT" = None.
Proof. vm_compute. repeat split. Qed.

(** ** The further properties at work *)

Lemma numbered_reads_back (r : record) :
  reads_back numbered_dumps numbered_loads r.
Proof. unfold reads_back, numbered_dumps, numbered_loads. apply decode_encode. Qed.

Lemma lower_ascii_only_agrees (s : pystr) :
  is_ascii s -> lower_ascii_only s = List.map ascii_lower s.
Proof. reflexivity. Qed.

Lemma summarize_addresses_negative_limit_witness :
  u "a;b;c" <> [] /\ (-1 < 0)%Z
  /\ summarize_addresses (Some (u "a;b;c")) (-1) = u "a, b, and 4 others".
Proof.
  assert (H1 : u "a;b;c" <> []) by discriminate.
  assert (H2 : (-1 < 0)%Z) by lia.
  split; [exact H1|]. split; [exact H2|].
  rewrite (proj1 (summarize_addresses_negative_limit (u "a;b;c") (-1) H1 H2)).
  vm_compute. reflexivity.
Defined.

Lemma summarize_addresses_counts_separators_witness :
  u "a;;b;" <> [] /\ (1 <= 2)%Z
  /\ summarize_addresses (Some (u "a;;b;")) 2 = u "a, , and 2 others".
Proof.
  assert (H1 : u "a;;b;" <> []) by discriminate.
  assert (H2 : (1 <= 2)%Z) by lia.
  split; [exact H1|]. split; [exact H2|].
  rewrite (proj2 (proj2 (summarize_addresses_counts_separators (u "a;;b;") 2 H1 H2)))
    by (vm_compute; discriminate).
  vm_compute. reflexivity.
Defined.

Lemma clean_value_idempotent_witness :
  (forall str_of, PBytes [72; 0; 233; 129] <> PObj str_of)
  /\ clean_value (PStr (clean_value (PBytes [72; 0; 233; 129])))
     = clean_value (PBytes [72; 0; 233; 129]).
Proof.
  assert (H : forall str_of, PBytes [72; 0; 233; 129] <> PObj str_of)
    by discriminate.
  split; [exact H|]. exact (clean_value_idempotent _ H).
Defined.

Lemma clean_value_bytes_one_char_per_octet_witness :
  is_ascii (u "Hi") /\ ~ In NUL (u "Hi") /\ clean_value (PBytes (u "Hi")) = u "Hi".
Proof.
  assert (H1 : is_ascii (u "Hi")) by (repeat constructor).
  assert (H2 : ~ In NUL (u "Hi")).
  { intros H. vm_compute in H.
    repeat (destruct H as [H|H]; [discriminate|]). exact H. }
  split; [exact H1|]. split; [exact H2|].
  exact (proj2 (proj2 (clean_value_bytes_one_char_per_octet (u "Hi"))) H1 H2).
Defined.

Lemma failed_attachment_leaves_earlier_files_witness :
  sample_decoder (u "mail/two.msg") = inr sample_message
  /\ attachments sample_message
     = [mkAttachment (Some (u "re:port.pdf")) (Some (u "REPORT~1.PDF")) [37; 80];
        mkAttachment None None [1]]
       ++ mkAttachment (Some []) (Some (u "B.TXT")) [2]
          :: [mkAttachment (Some (u "re/port.pdf")) None [3]]
  /\ fst (process_msg_file sample_decoder posix_stem posix_join locked_file
            (u "mail/two.msg") (u "Attachments") 3 3 false ∅)
       !! u "Attachments/two_re_port.pdf" = Some [37; 80]
  /\ snd (process_msg_file sample_decoder posix_stem posix_join locked_file
            (u "mail/two.msg") (u "Attachments") 3 3 false ∅)
     = (None, Some (u "Error parsing mail/two.msg: [Errno 13] Permission denied")).
Proof.
  assert (H1 : sample_decoder (u "mail/two.msg") = inr sample_message)
    by reflexivity.
  split; [exact H1|]. split; [reflexivity|].
  destruct (failed_attachment_leaves_earlier_files sample_decoder posix_stem
              posix_join locked_file (u "mail/two.msg") (u "Attachments") 3 3 false
              ∅ sample_message
              [mkAttachment (Some (u "re:port.pdf")) (Some (u "REPORT~1.PDF")) [37; 80];
               mkAttachment None None [1]]
              [mkAttachment (Some (u "re/port.pdf")) None [3]]
              (mkAttachment (Some []) (Some (u "B.TXT")) [2])
              (u "[Errno 13] Permission denied")
              H1 eq_refl ltac:(repeat constructor) eq_refl eq_refl) as [-> Hl].
  split; [|reflexivity]. simpl fst. rewrite Hl. reflexivity.
Defined.

Lemma task_writes_only_attachment_paths_witness :
  sample_decoder (u "mail/one.msg") = inr sample_message
  /\ (forall att, In att (attachments sample_message) -> retained att = true ->
                  u "Attachments/one_keep.bin"
                  <> posix_join (u "Attachments")
                                (saved_name posix_stem (u "mail/one.msg") att))
  /\ fst (process_msg_file sample_decoder posix_stem posix_join always_writable
            (u "mail/one.msg") (u "Attachments") 3 3 true
            {[ u "Attachments/one_keep.bin" := [1; 2; 3] ]})
       !! u "Attachments/one_keep.bin" = Some [1; 2; 3].
Proof.
  assert (H1 : sample_decoder (u "mail/one.msg") = inr sample_message)
    by reflexivity.
  assert (H2 : forall att, In att (attachments sample_message) ->
                 retained att = true ->
                 u "Attachments/one_keep.bin"
                 <> posix_join (u "Attachments")
                               (saved_name posix_stem (u "mail/one.msg") att)).
  { intros att Hin Hr. simpl in Hin.
    destruct Hin as [<-|[<-|[<-|[<-|[]]]]]; try discriminate Hr;
      vm_compute; discriminate. }
  split; [exact H1|]. split; [exact H2|].
  rewrite (proj1 (proj2 (task_writes_only_attachment_paths sample_decoder
                           posix_stem posix_join always_writable
                           (u "mail/one.msg") (u "Attachments") 3 3 true
                           {[ u "Attachments/one_keep.bin" := [1; 2; 3] ]}
                           (u "Attachments/one_keep.bin")))
             sample_message H1 H2).
  apply lookup_singleton_eq.
Defined.

Lemma saved_name_stays_in_directory_witness :
  attachment_name posix_stem (u "mail/one.msg")
    (mkAttachment (Some (u "../../etc/passwd")) None [])
  = Some (u "one_.._.._etc_passwd")
  /\ Forall (fun c => c <> 47 /\ c <> 92) (posix_stem (u "mail/one.msg"))
  /\ Forall (fun c => c <> 47 /\ c <> 92) (u "one_.._.._etc_passwd").
Proof.
  assert (H1 : attachment_name posix_stem (u "mail/one.msg")
                 (mkAttachment (Some (u "../../etc/passwd")) None [])
               = Some (u "one_.._.._etc_passwd")) by reflexivity.
  assert (H2 : Forall (fun c => c <> 47 /\ c <> 92) (posix_stem (u "mail/one.msg")))
    by (repeat constructor; discriminate).
  split; [exact H1|]. split; [exact H2|].
  exact (proj2 (proj2 (proj2 (proj2
           (saved_name_stays_in_directory posix_stem (u "mail/one.msg") _ _ H1))))
           H2).
Defined.

Lemma record_fields_are_clean_witness :
  exists files' r,
    process_msg_file sample_decoder posix_stem posix_join always_writable
      (u "mail/one.msg") (u "Attachments") 3 3 true ∅ = (files', (Some r, None))
    /\ List.map fst r = [u "Date"; u "From"; u "To"; u "Message"; u "Attachments";
                         u "MessageID"; u "SourceFile"].
Proof.
  assert (E : exists files' r,
             process_msg_file sample_decoder posix_stem posix_join always_writable
               (u "mail/one.msg") (u "Attachments") 3 3 true ∅
             = (files', (Some r, None)))
    by (eexists _, _; reflexivity).
  destruct E as (files' & r & E).
  exists files', r. split; [exact E|].
  exact (proj1 (record_fields_are_clean sample_decoder posix_stem posix_join
                  always_writable _ _ _ _ _ _ _ _ _ E)).
Defined.

Lemma main_sorts_what_the_batch_wrote_witness :
  (forall r, reads_back numbered_dumps numbered_loads r)
  /\ (forall l, Permutation l (in_opposite_order l))
  /\ lower_ascii_only (u "Y") = u "y"
  /\ exists result processed output_file,
       main sample_decoder posix_stem posix_join always_writable numbered_dumps
            numbered_loads lower_ascii_only posix_join in_opposite_order
            sample_args sample_tree (u "Y") ∅
       = Completed (u "Attachments") result processed output_file.
Proof.
  assert (H2 : forall l : list pystr, Permutation l (in_opposite_order l))
    by (intros l; apply Permutation_rev).
  assert (H3 : lower_ascii_only (u "Y") = u "y") by reflexivity.
  split; [exact numbered_reads_back|]. split; [exact H2|]. split; [exact H3|].
  destruct (main_sorts_what_the_batch_wrote sample_decoder posix_stem posix_join
              always_writable numbered_dumps numbered_loads lower_ascii_only
              posix_join in_opposite_order sample_args sample_tree (u "Y") ∅
              numbered_reads_back H2 H3) as (result & output_file & Hm & _).
  eexists _, _, _. exact Hm.
Defined.

Lemma sorted_output_ignores_completion_order_witness :
  (forall r, reads_back numbered_dumps numbered_loads r)
  /\ Permutation sample_batch (rev sample_batch)
  /\ u "desc" <> u "none"
  /\ exists sorted1 sorted2,
       reorder_pass numbered_dumps numbered_loads (u "desc")
         (run_out (run_batch sample_decoder posix_stem posix_join always_writable
                     numbered_dumps (u "Attachments") 3 3 false sample_batch ∅))
       = Some (List.map numbered_dumps sorted1)
       /\ reorder_pass numbered_dumps numbered_loads (u "desc")
            (run_out (run_batch sample_decoder posix_stem posix_join
                        always_writable numbered_dumps (u "Attachments") 3 3 false
                        (rev sample_batch) ∅))
          = Some (List.map numbered_dumps sorted2)
       /\ List.map date_text sorted1 = List.map date_text sorted2.
Proof.
  assert (H2 : Permutation sample_batch (rev sample_batch))
    by apply Permutation_rev.
  assert (H3 : u "desc" <> u "none") by discriminate.
  split; [exact numbered_reads_back|]. split; [exact H2|]. split; [exact H3|].
  destruct (sorted_output_ignores_completion_order sample_decoder posix_stem
              posix_join always_writable numbered_dumps numbered_loads
              (u "Attachments") 3 3 false sample_batch (rev sample_batch) ∅ ∅
              (u "desc") numbered_reads_back H2 H3)
    as (s1 & s2 & E1 & E2 & Hk & _).
  exists s1, s2. split; [exact E1|]. split; [exact E2|exact Hk].
Defined.


Lemma scan_directory_by_mode_witness :
  In (Dir (u "old.msg") [File (u "TWO.MSG")]) sample_tree
  /\ is_msg lower_ascii_only (u "old.msg") = true
  /\ In (posix_join (u "mail") (u "old.msg"))
        (scan_directory posix_join lower_ascii_only posix_join (u "mail") false
           sample_tree).
Proof.
  assert (H1 : In (Dir (u "old.msg") [File (u "TWO.MSG")]) sample_tree)
    by (right; right; now left).
  assert (H2 : is_msg lower_ascii_only (u "old.msg") = true) by reflexivity.
  split; [exact H1|]. split; [exact H2|].
  exact (proj1 (proj2 (proj2 (proj2
           (scan_directory_by_mode posix_join lower_ascii_only posix_join
              (u "mail") sample_tree)))) _ _ H1 H2).
Defined.

Lemma is_msg_on_ascii_names_witness :
  (forall s, is_ascii s -> lower_ascii_only s = List.map ascii_lower s)
  /\ is_ascii (u "msg")
  /\ (length (u "msg") < 4)%nat
  /\ is_msg lower_ascii_only (u "msg") = false.
Proof.
  assert (H2 : is_ascii (u "msg")) by (repeat constructor).
  assert (H3 : (length (u "msg") < 4)%nat) by (simpl; lia).
  split; [exact lower_ascii_only_agrees|]. split; [exact H2|]. split; [exact H3|].
  exact (proj2 (is_msg_on_ascii_names lower_ascii_only (u "msg")
                  lower_ascii_only_agrees H2) H3).
Defined.

Lemma main_confirmation_gate_witness :
  (forall s, is_ascii s -> lower_ascii_only s = List.map ascii_lower s)
  /\ is_ascii (u "yes")
  /\ main sample_decoder posix_stem posix_join always_writable numbered_dumps
          numbered_loads lower_ascii_only posix_join in_submission_order
          sample_args sample_tree (u "yes") ∅
     = Declined (u "Attachments").
Proof.
  assert (H2 : is_ascii (u "yes")) by (repeat constructor).
  split; [exact lower_ascii_only_agrees|]. split; [exact H2|].
  apply (proj2 (main_confirmation_gate sample_decoder posix_stem posix_join
                  always_writable numbered_dumps numbered_loads lower_ascii_only
                  posix_join in_submission_order sample_args sample_tree (u "yes")
                  ∅ lower_ascii_only_agrees H2)).
  right. now left.
Defined.

Lemma reorder_pass_raises_on_bad_file_witness :
  u "asc" <> u "none"
  /\ In [] [u "2024-03-01"; []; u "2023-12-31"]
  /\ strict_date_loads [] = None
  /\ reorder_pass date_line_dumps strict_date_loads (u "asc")
       [u "2024-03-01"; []; u "2023-12-31"] = None.
Proof.
  assert (H1 : u "asc" <> u "none") by discriminate.
  assert (H2 : In [] [u "2024-03-01"; []; u "2023-12-31"]) by (right; now left).
  split; [exact H1|]. split; [exact H2|]. split; [reflexivity|].
  exact (proj1 (reorder_pass_raises_on_bad_file date_line_dumps strict_date_loads
                  (u "asc") _ H1) [] H2 eq_refl).
Defined.
